(** * flexUI documentation catalog: the Doc controller and its routes

    A shallow embedding of [controllers/docController.js] and
    [routes/docRoutes.js].  Request payloads are JavaScript values, the
    relational store is an explicit state threaded through every handler,
    and a handler's outcome is the response it sends or the error it
    forwards to [next]. *)

From Stdlib Require Import List String Ascii ZArith Lia Bool.
From Stdlib Require Import Sorted Permutation DecimalString DecimalZ.
Import ListNotations.

Local Open Scope string_scope.
Local Open Scope Z_scope.

(** ** JavaScript values *)

(** JSON-shaped values, as they arrive in [req.body].  Numbers are kept to
    the integers, which is all the controller inspects (ids). *)
#[warnings="-register-all"]
Inductive JValue : Type :=
| JUndefined
| JNull
| JBool (b : bool)
| JNum (z : Z)
| JStr (s : string)
| JArr (items : list JValue)
| JObj (props : list (string * JValue)).

(** ToBoolean. *)
Definition truthy (v : JValue) : bool :=
  match v with
  | JUndefined | JNull => false
  | JBool b => b
  | JNum z => negb (z =? 0)
  | JStr s => negb (s =? "")%string
  | JArr _ | JObj _ => true
  end.

(** [a || b]. *)
Definition js_or (a b : JValue) : JValue := if truthy a then a else b.

(** [Array.isArray]. *)
Definition isArray (v : JValue) : bool :=
  match v with JArr _ => true | _ => false end.

Definition own_prop (props : list (string * JValue)) (k : string) : JValue :=
  match find (fun p => (fst p =? k)%string) props with
  | Some p => snd p
  | None => JUndefined
  end.

(** Number-to-string conversion of an integer, and the numeral a string
    denotes when it is compared with an integer column. *)
Definition Number_toString (z : Z) : string :=
  NilZero.string_of_int (Z.to_int z).

Definition numeral (s : string) : option Z :=
  option_map Z.of_int (NilZero.int_of_string s).

(** ToPropertyKey for the values used as keys by the controller. *)
Definition to_property_key (v : JValue) : string :=
  match v with
  | JUndefined => "undefined"
  | JNull => "null"
  | JBool true => "true"
  | JBool false => "false"
  | JNum z => Number_toString z
  | JStr s => s
  | JArr _ => ""
  | JObj _ => "[object Object]"
  end.

(** A property key is an array index when it is the canonical numeral of
    an integer in [0, 2^32 - 2]. *)
Definition array_index (k : string) : option Z :=
  match numeral k with
  | Some z =>
      if (0 <=? z) && (z <? 2 ^ 32 - 1) && (Number_toString z =? k)%string
      then Some z else None
  | None => None
  end.

(** Stable insertion sort, the model of an [order: [[col, "ASC"]]] clause;
    rows that compare equal keep the order of the table. *)
Section Sorting.
Context {A : Type} (le : A -> A -> bool).

Fixpoint insert_sorted (x : A) (l : list A) : list A :=
  match l with
  | [] => [x]
  | y :: l' => if le x y then x :: y :: l' else y :: insert_sorted x l'
  end.

Definition order_by (l : list A) : list A := fold_right insert_sorted [] l.

Definition in_order (x y : A) : Prop := le x y = true.
End Sorting.

(** ** Ordinary objects used as dictionaries

    Own properties in creation order.  Enumeration
    (OrdinaryOwnPropertyKeys, hence [Object.values]) lists the array-index
    keys first, in ascending numeric order, then the other string keys in
    creation order. *)
Module JsObject.
Section Dict.
Context {V : Type}.

Definition t := list (string * V).

Definition empty : t := [].

Fixpoint get (o : t) (k : string) : option V :=
  match o with
  | [] => None
  | (k', v) :: o' => if (k' =? k)%string then Some v else get o' k
  end.

(** [o[k] = v]: overwrite in place, or create the property last. *)
Fixpoint set (o : t) (k : string) (v : V) : t :=
  match o with
  | [] => [(k, v)]
  | (k', v') :: o' =>
      if (k' =? k)%string then (k', v) :: o' else (k', v') :: set o' k v
  end.

Definition is_index (p : string * V) : bool :=
  match array_index (fst p) with Some _ => true | None => false end.

Definition index_of (p : string * V) : Z :=
  match array_index (fst p) with Some z => z | None => 0 end.

Definition index_le (p q : string * V) : bool := index_of p <=? index_of q.

Definition sort_indices (l : list (string * V)) := order_by index_le l.

Definition own_keys_order (o : t) : list (string * V) :=
  sort_indices (filter is_index o)
    ++ filter (fun p => negb (is_index p)) o.

Definition keys (o : t) : list string := map fst (own_keys_order o).

Definition values (o : t) : list V := map snd (own_keys_order o).
End Dict.
Arguments t : clear implicits.
End JsObject.

(** ** The relational store

    The controller reaches the store through the models of [../models],
    defined elsewhere in the repository.  Rows follow the data model of the
    specification; surrogate keys are integers issued by the store, and
    the other Doc and Code columns hold the values the controller hands
    over. *)

Module Category.
(** Modelled from the spec: the Category model ([../models]), a named
    grouping with a surrogate key, a display name and a slug. *)
Record row := { id : Z; categoryName : string; slug : string }.
End Category.

Module Code.
(** Modelled from the spec: the Code model ([../models]), a
    language-tagged snippet owned by exactly one Doc. *)
Record row := { id : Z; language : JValue; code : JValue; docId : Z }.
End Code.

Module Doc.
(** Modelled from the spec: the Doc model ([../models]); [categoryId]
    and [parentId] are nullable references, and a Doc whose [parentId] is
    null is a main Doc. *)
Record row := {
  id : Z;
  uiName : JValue;
  uiSubtitle : JValue;
  docs : JValue;
  uniqueSlug : JValue;
  categoryId : JValue;
  parentId : JValue
}.
End Doc.

Record Store := {
  doc_rows : list Doc.row;
  code_rows : list Code.row;
  category_rows : list Category.row;
  next_doc_id : Z;
  next_code_id : Z
}.

(** An attribute that was left [undefined] is stored as NULL. *)
Definition column (v : JValue) : JValue :=
  match v with JUndefined => JNull | _ => v end.

(** The integer a value denotes when compared with a key column. *)
Definition as_key (v : JValue) : option Z :=
  match v with
  | JNum z => Some z
  | JStr s => numeral s
  | _ => None
  end.

(** SQL equality on key columns: NULL and non-numerals match nothing. *)
Definition key_eq (a b : JValue) : bool :=
  match as_key a, as_key b with
  | Some x, Some y => x =? y
  | _, _ => false
  end.

(** [where: { parentId: null }]. *)
Definition is_null (v : JValue) : bool :=
  match v with JNull => true | _ => false end.

Definition main_doc (d : Doc.row) : bool := is_null (Doc.parentId d).

(** Keys are issued in increasing order and Code rows point below the next
    Doc key: a freshly issued Doc key owns no Code row yet. *)
Record store_ok (st : Store) : Prop := {
  doc_ids_issued : Forall (fun d => Doc.id d < next_doc_id st) (doc_rows st);
  code_owners_issued :
    Forall (fun c => Code.docId c < next_doc_id st) (code_rows st)
}.

Definition empty_store : Store :=
  {| doc_rows := []; code_rows := []; category_rows := [];
     next_doc_id := 1; next_code_id := 1 |}.

(** What a handler does with [res] and [next]. *)
Inductive Fault := TypeError | StoreError.

Inductive Reply (A : Type) : Type :=
| Json (status : Z) (body : A)            (* res.status(s).json(body) *)
| Message (status : Z) (message : string) (* res.status(s).json({ message }) *)
| Next (error : Fault).                   (* next(error) *)
Arguments Json {A} status body.
Arguments Message {A} status message.
Arguments Next {A} error.

(** ** Response shapes *)

(** [attributes: ["categoryName", "slug"]]. *)
Record CategoryRef := { ref_categoryName : string; ref_slug : string }.

(** A variant with [include: [{ model: Code, as: "codes" }]]. *)
Module Variant.
Record t := { doc : Doc.row; codes : list Code.row }.
End Variant.

(** A Doc with its codes, category and uiVariants. *)
Module Full.
Record t := {
  doc : Doc.row;
  codes : list Code.row;
  category : option CategoryRef;
  uiVariants : list Variant.t
}.
End Full.

(** A Doc re-fetched after creation: codes and category only. *)
Module Created.
Record t := {
  doc : Doc.row;
  codes : list Code.row;
  category : option CategoryRef
}.
End Created.

(** A Doc with [attributes: ["id", "uiName", "uniqueSlug", "categoryId"]]
    and its category with [attributes: ["id", "categoryName", "slug"]]. *)
Module Slim.
Record t := {
  id : Z;
  uiName : JValue;
  uniqueSlug : JValue;
  categoryId : JValue;
  category : option Category.row
}.
End Slim.

(** The buckets built by [getUniqueSlugsGrouped].  A bucket's category is
    the Doc's category or the default one, whose [id] is the string "0". *)
Module Group.
Record category := { id : JValue; categoryName : string; slug : string }.
Record child := {
  child_id : Z;
  uiName : JValue;
  uniqueSlug : JValue;
  categoryId : JValue
}.
Record t := { cat : category; children : list child }.
End Group.

(** A Code row with [attributes: ["id", "language", "code"]]. *)
Module Snippet.
Record t := { id : Z; language : JValue; code : JValue }.
End Snippet.

Module Coded.
Record t := { doc : Slim.t; codes : list Snippet.t }.
End Coded.

(** ** [routes/docRoutes.js] *)

Inductive Method := GET | POST | PUT | DELETE.

Definition Method_eqb (a b : Method) : bool :=
  match a, b with
  | GET, GET | POST, POST | PUT, PUT | DELETE, DELETE => true
  | _, _ => false
  end.

(** The functions defined by the controller. *)
Inductive Handler :=
| H_getDocs | H_getDocById | H_createDoc | H_updateDoc | H_deleteDoc
| H_createVariant | H_getDocByUniqueSlug
| H_getUniqueSlugsGrouped | H_getUniqueSlugsWithCode.

(** [module.exports] of the controller. *)
Definition module_exports : list (string * Handler) :=
  [ ("getDocs", H_getDocs);
    ("getDocById", H_getDocById);
    ("createDoc", H_createDoc);
    ("updateDoc", H_updateDoc);
    ("deleteDoc", H_deleteDoc);
    ("createVariant", H_createVariant);
    ("getDocByUniqueSlug", H_getDocByUniqueSlug);
    ("getUniqueSlugsGrouped", H_getUniqueSlugsGrouped);
    ("getUniqueSlugsWithCode", H_getUniqueSlugsWithCode) ].

(** [const { name } = require("../controllers/docController")]: the
    exported function, or [undefined] ([None]). *)
Definition imported (name : string) : option Handler :=
  option_map snd (find (fun e => (fst e =? name)%string) module_exports).

Inductive Segment := Lit (s : string) | Param (name : string).

Record Route := {
  route_method : Method;
  route_path : list Segment;
  route_handler : option Handler
}.

(** The route table in registration order. *)
Definition routes : list Route :=
  [ {| route_method := GET; route_path := [];
       route_handler := imported "getDocs" |};
    {| route_method := GET; route_path := [Param "id"];
       route_handler := imported "getDocById" |};
    {| route_method := POST; route_path := [Lit "createDoc"];
       route_handler := imported "createDoc" |};
    {| route_method := PUT; route_path := [Lit "updateDoc"; Param "id"];
       route_handler := imported "updateDoc" |};
    {| route_method := DELETE; route_path := [Lit "deleteDoc"; Param "id"];
       route_handler := imported "deleteDoc" |};
    {| route_method := GET;
       route_path := [Lit "getDocByUniqueSlug"; Param "uniqueSlug"];
       route_handler := imported "getDocByUniqueSlug" |};
    {| route_method := GET; route_path := [Lit "unique-slugs"];
       route_handler := imported "getUniqueSlugs" |};
    {| route_method := POST; route_path := [Lit "createVariant"; Param "id"];
       route_handler := imported "createVariant" |} ].

(** [router.METHOD(path, handler)] throws unless the handler is a
    function, so the routes module loads only if every handler is bound. *)
Definition router : option (list Route) :=
  if forallb (fun r => match route_handler r with Some _ => true | None => false end)
             routes
  then Some routes else None.

(** *** Matching a path as Express does

    A route path is compiled to a case-insensitive regular expression
    that is anchored at both ends and allows one trailing slash; it is
    matched against the raw path of the request, and each captured
    parameter is then passed through [decodeURIComponent]. *)

(** Letters compare without regard to case; other bytes compare as they
    are. *)
Definition upper (c : ascii) : ascii :=
  let n := N_of_ascii c in
  if (97 <=? n)%N && (n <=? 122)%N then ascii_of_N (n - 32) else c.

Fixpoint same_ignoring_case (a b : string) : bool :=
  match a, b with
  | EmptyString, EmptyString => true
  | String x a', String y b' =>
      Ascii.eqb (upper x) (upper y) && same_ignoring_case a' b'
  | _, _ => false
  end.

Definition hex_digit (c : ascii) : option N :=
  let n := N_of_ascii c in
  if (48 <=? n)%N && (n <=? 57)%N then Some (n - 48)%N
  else if (65 <=? n)%N && (n <=? 70)%N then Some (n - 55)%N
  else if (97 <=? n)%N && (n <=? 102)%N then Some (n - 87)%N
  else None.

(** The bytes of a string once its escapes ["%XX"] are read, each marked
    when it comes from an escape; [None] when a ["%"] is not followed by
    two hexadecimal digits. *)
Fixpoint unescape (s : string) : option (list (bool * N)) :=
  match s with
  | EmptyString => Some []
  | String c rest =>
      if Ascii.eqb c "%" then
        match rest with
        | String h (String l rest') =>
            match hex_digit h, hex_digit l, unescape rest' with
            | Some a, Some b, Some bytes => Some ((true, 16 * a + b)%N :: bytes)
            | _, _, _ => None
            end
        | _ => None
        end
      else option_map (cons (false, N_of_ascii c)) (unescape rest)
  end.

Definition between (lo hi b : N) : bool := ((lo <=? b) && (b <=? hi))%N.

(** An escaped byte above 127 must open a well-formed UTF-8 sequence
    whose other bytes are escaped too. *)
Fixpoint escapes_well_formed (bytes : list (bool * N)) : bool :=
  match bytes with
  | [] => true
  | (false, _) :: rest => escapes_well_formed rest
  | (true, b) :: rest =>
      if (b <? 128)%N then escapes_well_formed rest
      else if between 194 223 b then
        match rest with
        | (true, b1) :: rest1 => between 128 191 b1 && escapes_well_formed rest1
        | _ => false
        end
      else if between 224 239 b then
        match rest with
        | (true, b1) :: (true, b2) :: rest2 =>
            (if (b =? 224)%N then between 160 191 b1
             else if (b =? 237)%N then between 128 159 b1
             else between 128 191 b1)
            && between 128 191 b2 && escapes_well_formed rest2
        | _ => false
        end
      else if between 240 244 b then
        match rest with
        | (true, b1) :: (true, b2) :: (true, b3) :: rest3 =>
            (if (b =? 240)%N then between 144 191 b1
             else if (b =? 244)%N then between 128 143 b1
             else between 128 191 b1)
            && between 128 191 b2 && between 128 191 b3
            && escapes_well_formed rest3
        | _ => false
        end
      else false
  end.

(** [decodeURIComponent]; [None] is its URIError.  Strings are sequences
    of bytes, a character above 127 standing as its UTF-8 bytes. *)
Definition decodeURIComponent (s : string) : option string :=
  match unescape s with
  | Some bytes =>
      if escapes_well_formed bytes
      then Some (string_of_list_ascii (map (fun p => ascii_of_N (snd p)) bytes))
      else None
  | None => None
  end.

(** The pieces of a string between slashes, empty ones included. *)
Fixpoint pieces (s : string) (cur : string) : list string :=
  match s with
  | EmptyString => [cur]
  | String c rest =>
      if Ascii.eqb c "/" then cur :: pieces rest ""
      else pieces rest (cur ++ String c "")
  end.

Definition without_trailing_empty (ps : list string) : list string :=
  match rev ps with
  | EmptyString :: r => rev r
  | _ => ps
  end.

(** The segments of a request path: the path is empty, or starts with a
    slash, its segments are not empty, and one trailing slash is allowed;
    [None] for a path no route pattern can match. *)
Definition segments (path : string) : option (list string) :=
  match path with
  | EmptyString => Some []
  | String c rest =>
      if Ascii.eqb c "/" then
        let segs := without_trailing_empty (pieces rest "") in
        if forallb (fun seg => negb (seg =? "")%string) segs
        then Some segs else None
      else None
  end.

Inductive PathMatch :=
| NoMatch
| BadParam                                   (* a parameter fails to decode *)
| Bound (params : list (string * string)).

(** A parameter matches one segment and is bound to its decoded value; a
    literal matches a segment that differs from it by case at most. *)
Fixpoint match_path (pattern : list Segment) (segs : list string) : PathMatch :=
  match pattern, segs with
  | [], [] => Bound []
  | Lit s :: pattern', seg :: segs' =>
      if same_ignoring_case s seg then match_path pattern' segs' else NoMatch
  | Param name :: pattern', seg :: segs' =>
      match match_path pattern' segs' with
      | NoMatch => NoMatch
      | BadParam => BadParam
      | Bound params =>
          match decodeURIComponent seg with
          | Some value => Bound ((name, value) :: params)
          | None => BadParam
          end
      end
  | _, _ => NoMatch
  end.

Definition match_route (r : Route) (path : string) : PathMatch :=
  match segments path with
  | Some segs => match_path (route_path r) segs
  | None => NoMatch
  end.

(** The first registered route whose path and method match handles the
    request.  Paths are matched before methods, and once a parameter has
    failed to decode no later route matches: the request ends in an
    error and no handler is called ([None], as when nothing matches). *)
Fixpoint dispatch (table : list Route) (m : Method) (path : string)
  : option (Route * list (string * string)) :=
  match table with
  | [] => None
  | r :: table' =>
      match match_route r path with
      | NoMatch => dispatch table' m path
      | BadParam => None
      | Bound params =>
          if Method_eqb (route_method r) m then Some (r, params)
          else dispatch table' m path
      end
  end.

(** The properties of a value as read by [v.k] and by the destructuring
    [const { k } = v]: reading from [undefined] or [null] throws a
    TypeError ([None]); a missing property reads as [undefined].  Only
    data properties of parsed JSON are looked up (the controller never
    reads [length] or the like). *)
Definition props_of (v : JValue) : option (string -> JValue) :=
  match v with
  | JUndefined | JNull => None
  | JObj props => Some (own_prop props)
  | _ => Some (fun _ => JUndefined)
  end.

(** The object literal [{ uiName, uiSubtitle, docs, parentId, categoryId }]
    handed to [Doc.create]. *)
Definition doc_values (uiName uiSubtitle docs parentId categoryId : JValue)
  : list (string * JValue) :=
  [("uiName", uiName); ("uiSubtitle", uiSubtitle); ("docs", docs);
   ("parentId", parentId); ("categoryId", categoryId)].

(** An input that the payload supplies (JSON has no [undefined]). *)
Definition supplied (v : JValue) : Prop := v <> JUndefined.

(** The payload entry [{ language, code }]. *)
Definition code_entry (lc : JValue * JValue) : JValue :=
  JObj [("language", fst lc); ("code", snd lc)].

(** The [language] and [code] columns written for one entry of [codes]. *)
Definition entry_columns (codeEntry : JValue) : JValue * JValue :=
  match props_of codeEntry with
  | Some entry => (column (entry "language"), column (entry "code"))
  | None => (JNull, JNull)
  end.

Definition code_columns (c : Code.row) : JValue * JValue :=
  (Code.language c, Code.code c).

(** ** Reference order and sample data *)

(** The order the specification gives to the buckets: the distinct keys of
    a sequence, each at its first occurrence. *)
Fixpoint first_occurrences (seen keys : list string) : list string :=
  match keys with
  | [] => []
  | k :: rest =>
      if existsb (String.eqb k) seen then first_occurrences seen rest
      else k :: first_occurrences (k :: seen) rest
  end.

(** A store without constraints whose slug hook reuses the Doc's name. *)
Definition name_as_slug (st : Store) (d : Doc.row) : JValue := Doc.uiName d.
Definition accept_doc (st : Store) (d : Doc.row) : bool := true.
Definition accept_code (st : Store) (c : Code.row) : bool := true.

Definition main_row (id : Z) (name : string) (categoryId : JValue) : Doc.row :=
  {| Doc.id := id; Doc.uiName := JStr name; Doc.uiSubtitle := JNull;
     Doc.docs := JNull; Doc.uniqueSlug := JStr name;
     Doc.categoryId := categoryId; Doc.parentId := JNull |}.

(** Three main Docs over two categories, one Doc without a category; the
    category that sorts first by name has the larger id. *)
Definition two_categories : Store :=
  {| doc_rows := [ main_row 1 "card" (JNum 1);
                   main_row 2 "button" (JNum 2);
                   main_row 3 "misc" JNull ];
     code_rows := [];
     category_rows :=
       [ {| Category.id := 1; Category.categoryName := "Zeta";
            Category.slug := "zeta" |};
         {| Category.id := 2; Category.categoryName := "Alpha";
            Category.slug := "alpha" |} ];
     next_doc_id := 4;
     next_code_id := 1 |}.

Definition button_codes : list (JValue * JValue) :=
  [ (JStr "jsx", JStr "function Button() {}");
    (JStr "css", JStr ".button {}") ].

(** The payload of the controller's own example. *)
Definition button_payload : JValue :=
  JObj [ ("uiName", JStr "Button");
         ("uiSubtitle", JStr "Primary Button");
         ("docs", JStr "# Button Documentation");
         ("categoryId", JNum 1);
         ("codes", JArr (map code_entry button_codes));
         ("parentId", JNull) ].

Definition button_fields : string -> JValue :=
  own_prop [ ("uiName", JStr "Button");
             ("uiSubtitle", JStr "Primary Button");
             ("docs", JStr "# Button Documentation");
             ("categoryId", JNum 1);
             ("codes", JArr (map code_entry button_codes));
             ("parentId", JNull) ].

(** A payload whose [codes] is a string, whose [parentId] names a Doc
    that does not exist, and which asks for a slug of its own. *)
Definition stray_payload : JValue :=
  JObj [ ("uiName", JStr "Ghost");
         ("codes", JStr "jsx");
         ("parentId", JNum 99);
         ("uniqueSlug", JStr "forced") ].

Definition stray_fields : string -> JValue :=
  own_prop [ ("uiName", JStr "Ghost");
             ("codes", JStr "jsx");
             ("parentId", JNum 99);
             ("uniqueSlug", JStr "forced") ].

(** [two_categories] with snippets: Doc 1 owns a tailwind and a jsx row,
    Doc 2 a css row, Doc 3 none. *)
Definition with_snippets : Store :=
  {| doc_rows := doc_rows two_categories;
     code_rows :=
       [ {| Code.id := 1; Code.language := JStr "tailwind";
            Code.code := JStr "p-4 rounded"; Code.docId := 1 |};
         {| Code.id := 2; Code.language := JStr "jsx";
            Code.code := JStr "<Card />"; Code.docId := 1 |};
         {| Code.id := 3; Code.language := JStr "css";
            Code.code := JStr ".button {}"; Code.docId := 2 |} ];
     category_rows := category_rows two_categories;
     next_doc_id := 4;
     next_code_id := 4 |}.

(** Two ways a store may list the rows of an include: as the table has
    them, and the newest row first. *)
Definition as_stored (st : Store) (a b : Code.row) : bool := true.

Definition newest_first (st : Store) (a b : Code.row) : bool :=
  Code.id b <=? Code.id a.

(** A payload that tries to move a Doc under another parent and to
    rewrite its slug. *)
Definition rename_payload : JValue :=
  JObj [ ("uiName", JStr "Button v2");
         ("parentId", JNum 1);
         ("uniqueSlug", JStr "hijacked") ].

Definition child_row (id : Z) (name : string) (categoryId : JValue)
  : Group.child :=
  {| Group.child_id := id; Group.uiName := JStr name;
     Group.uniqueSlug := JStr name; Group.categoryId := categoryId |}.

(** What [getUniqueSlugsGrouped] sends for [two_categories]. *)
Definition two_categories_buckets : list Group.t :=
  [ {| Group.cat := {| Group.id := JStr "0";
                       Group.categoryName := "Uncategorized";
                       Group.slug := "uncategorized" |};
       Group.children := [child_row 3 "misc" JNull] |};
    {| Group.cat := {| Group.id := JNum 1; Group.categoryName := "Zeta";
                       Group.slug := "zeta" |};
       Group.children := [child_row 1 "card" (JNum 1)] |};
    {| Group.cat := {| Group.id := JNum 2; Group.categoryName := "Alpha";
                       Group.slug := "alpha" |};
       Group.children := [child_row 2 "button" (JNum 2)] |} ].

Definition bucket_key (g : Group.t) : string :=
  to_property_key (Group.id (Group.cat g)).

(** The number under which a bucket is enumerated: its category id, and 0
    for the default category. *)
Definition key_number (g : Group.t) : Z :=
  match Group.id (Group.cat g) with
  | JNum z => z
  | _ => 0
  end.

(** ** More sample data *)

Definition variant_row (id : Z) (name : string) (parentId : JValue) : Doc.row :=
  {| Doc.id := id; Doc.uiName := JStr name; Doc.uiSubtitle := JNull;
     Doc.docs := JNull; Doc.uniqueSlug := JStr name;
     Doc.categoryId := JNull; Doc.parentId := parentId |}.

(** Two families: Doc 1 with variant 2, itself with variant 3; Doc 4 with
    variant 5.  Docs 3 and 5 own one Code row each. *)
Definition families : Store :=
  {| doc_rows := [ main_row 1 "card" JNull;
                   variant_row 2 "card-outline" (JStr "1");
                   variant_row 3 "card-outline-dark" (JNum 2);
                   main_row 4 "button" JNull;
                   variant_row 5 "button-ghost" (JNum 4) ];
     code_rows :=
       [ {| Code.id := 1; Code.language := JStr "jsx";
            Code.code := JStr "<Card dark />"; Code.docId := 3 |};
         {| Code.id := 2; Code.language := JStr "jsx";
            Code.code := JStr "<Button ghost />"; Code.docId := 5 |} ];
     category_rows := [];
     next_doc_id := 6;
     next_code_id := 3 |}.


Definition broken_payload : JValue :=
  JObj [ ("uiName", JStr "Broken");
         ("codes", JArr [ code_entry (JStr "jsx", JStr "<A />");
                          JNull;
                          code_entry (JStr "css", JStr ".a {}") ]) ].

(** A payload whose entries of [codes] are an object without [code] and a
    number. *)
Definition odd_fields : string -> JValue :=
  own_prop [ ("uiName", JStr "Odd");
             ("codes", JArr [ JObj [("language", JStr "jsx")]; JNum 7 ]) ].

Definition odd_payload : JValue :=
  JObj [ ("uiName", JStr "Odd");
         ("codes", JArr [ JObj [("language", JStr "jsx")]; JNum 7 ]) ].

(** ** Replies compared up to the order of included rows *)

Definition same_variant (a b : Variant.t) : Prop :=
  Variant.doc a = Variant.doc b /\
  Permutation (Variant.codes a) (Variant.codes b).

Definition same_entry (a b : Full.t) : Prop :=
  Full.doc a = Full.doc b /\
  Permutation (Full.codes a) (Full.codes b) /\
  Full.category a = Full.category b /\
  (forall w, In w (Full.uiVariants a) ->
             exists w', In w' (Full.uiVariants b) /\ same_variant w w') /\
  (forall w', In w' (Full.uiVariants b) ->
              exists w, In w (Full.uiVariants a) /\ same_variant w w').

(** ** Consistency of the store *)

(** Keys are issued once, and every Code row is owned by a Doc row. *)
Record consistent (st : Store) : Prop := {
  keys_issued : store_ok st;
  keys_unique : NoDup (map Doc.id (doc_rows st));
  codes_owned :
    Forall (fun c => In (Code.docId c) (map Doc.id (doc_rows st)))
           (code_rows st)
}.

(** ** [components/CodeComponets/CodeBlock.tsx] *)

Fixpoint skip (n : nat) (s : string) : string :=
  match n, s with
  | O, _ => s
  | S n', String _ rest => skip n' rest
  | S _, EmptyString => EmptyString
  end.

(** [s.replace(pattern, replacement)] for a string pattern: the first
    occurrence of the pattern is replaced (the replacement is taken
    literally, as it is for the empty replacement the component uses). *)
Fixpoint replace_first (pattern replacement s : string) : string :=
  if String.prefix pattern s
  then (replacement ++ skip (String.length pattern) s)%string
  else match s with
       | EmptyString => EmptyString
       | String c rest => String c (replace_first pattern replacement rest)
       end.

(** The [language] of [CodeBlock]: [className] defaults to the empty
    string, and an empty result falls back to "javascript". *)
Definition CodeBlock_language (className : option string) : string :=
  let className := match className with Some c => c | None => "" end in
  let stripped := replace_first "language-" "" className in
  if (stripped =? "")%string then "javascript" else stripped.

Section Catalog.

(** What the model definitions of [../models] decide and the controller
    does not: the slug given to a Doc created without one, and which
    rows the store's constraints accept. *)
Variable slug_hook : Store -> Doc.row -> JValue.
Variable doc_constraints : Store -> Doc.row -> bool.
Variable code_constraints : Store -> Code.row -> bool.
(** Whether NULL sorts before every value in an ascending ORDER BY. *)
Variable nulls_first : bool.
(** No query orders the rows of an include.  The order in which a
    [findAll] returns them is the store's, and may change as the store
    does: of two Code rows of a Doc, whether the first is returned
    before the second. *)
Variable included_first : Store -> Code.row -> Code.row -> bool.

(** *** Model operations *)

Definition with_slug (d : Doc.row) (s : JValue) : Doc.row :=
  {| Doc.id := Doc.id d; Doc.uiName := Doc.uiName d;
     Doc.uiSubtitle := Doc.uiSubtitle d; Doc.docs := Doc.docs d;
     Doc.uniqueSlug := s; Doc.categoryId := Doc.categoryId d;
     Doc.parentId := Doc.parentId d |}.

Definition Doc_build (st : Store) (values : list (string * JValue)) : Doc.row :=
  let draft :=
    {| Doc.id := next_doc_id st;
       Doc.uiName := column (own_prop values "uiName");
       Doc.uiSubtitle := column (own_prop values "uiSubtitle");
       Doc.docs := column (own_prop values "docs");
       Doc.uniqueSlug := column (own_prop values "uniqueSlug");
       Doc.categoryId := column (own_prop values "categoryId");
       Doc.parentId := column (own_prop values "parentId") |} in
  if is_null (Doc.uniqueSlug draft) then with_slug draft (slug_hook st draft)
  else draft.

(** Modelled from the spec: [Doc.create(values)] creates a Doc row under
    a fresh key, with the slug generated when none is given; [None] when
    the store rejects the row. *)
Definition Doc_create (st : Store) (values : list (string * JValue))
  : option (Store * Doc.row) :=
  let row := Doc_build st values in
  if doc_constraints st row then
    Some ({| doc_rows := doc_rows st ++ [row];
             code_rows := code_rows st;
             category_rows := category_rows st;
             next_doc_id := next_doc_id st + 1;
             next_code_id := next_code_id st |}, row)
  else None.

(** Modelled from the spec: [Code.create(values)] creates a Code row
    linked to the Doc named by [docId]. *)
Definition Code_create (st : Store) (values : list (string * JValue))
  : option (Store * Code.row) :=
  match as_key (own_prop values "docId") with
  | None => None
  | Some owner =>
      let row :=
        {| Code.id := next_code_id st;
           Code.language := column (own_prop values "language");
           Code.code := column (own_prop values "code");
           Code.docId := owner |} in
      if code_constraints st row then
        Some ({| doc_rows := doc_rows st;
                 code_rows := code_rows st ++ [row];
                 category_rows := category_rows st;
                 next_doc_id := next_doc_id st;
                 next_code_id := next_code_id st + 1 |}, row)
      else None
  end.

(** Modelled from the spec: [Doc.findByPk(key)], the Doc with that
    surrogate key, if any. *)
Definition Doc_findByPk (st : Store) (key : JValue) : option Doc.row :=
  find (fun d => key_eq (JNum (Doc.id d)) key) (doc_rows st).

(** One attribute of [instance.update(values)]: attributes whose value
    is [undefined] are left as they are. *)
Definition assign (values : list (string * JValue)) (k : string)
    (old : JValue) : JValue :=
  match own_prop values k with
  | JUndefined => old
  | v => v
  end.

Definition Doc_assign (d : Doc.row) (values : list (string * JValue)) : Doc.row :=
  {| Doc.id := Doc.id d;
     Doc.uiName := assign values "uiName" (Doc.uiName d);
     Doc.uiSubtitle := assign values "uiSubtitle" (Doc.uiSubtitle d);
     Doc.docs := assign values "docs" (Doc.docs d);
     Doc.uniqueSlug := assign values "uniqueSlug" (Doc.uniqueSlug d);
     Doc.categoryId := assign values "categoryId" (Doc.categoryId d);
     Doc.parentId := assign values "parentId" (Doc.parentId d) |}.

(** Modelled from the spec: [doc.update(values)], a partial update that
    writes the attributes present in [values]. *)
Definition Doc_update (st : Store) (d : Doc.row)
    (values : list (string * JValue)) : option (Store * Doc.row) :=
  let row := Doc_assign d values in
  if doc_constraints st row then
    Some ({| doc_rows :=
               map (fun r => if Doc.id r =? Doc.id d then row else r)
                   (doc_rows st);
             code_rows := code_rows st;
             category_rows := category_rows st;
             next_doc_id := next_doc_id st;
             next_code_id := next_code_id st |}, row)
  else None.

(** *** Eager loading

    [codes_of] and [variants_of] give the rows of an include in the
    order of the table, which is how a lookup of one Doc ([findByPk],
    [findOne]) is taken to return them. *)

Definition codes_of (st : Store) (d : Doc.row) : list Code.row :=
  filter (fun c => Code.docId c =? Doc.id d) (code_rows st).

Definition category_row_of (st : Store) (d : Doc.row) : option Category.row :=
  find (fun c => key_eq (JNum (Category.id c)) (Doc.categoryId d))
       (category_rows st).

Definition category_ref_of (st : Store) (d : Doc.row) : option CategoryRef :=
  option_map
    (fun c => {| ref_categoryName := Category.categoryName c;
                 ref_slug := Category.slug c |})
    (category_row_of st d).

Definition variants_of (st : Store) (d : Doc.row) : list Variant.t :=
  map (fun v => {| Variant.doc := v; Variant.codes := codes_of st v |})
      (filter (fun v => key_eq (Doc.parentId v) (JNum (Doc.id d)))
              (doc_rows st)).

Definition full (st : Store) (d : Doc.row) : Full.t :=
  {| Full.doc := d; Full.codes := codes_of st d;
     Full.category := category_ref_of st d;
     Full.uiVariants := variants_of st d |}.

Definition created (st : Store) (d : Doc.row) : Created.t :=
  {| Created.doc := d; Created.codes := codes_of st d;
     Created.category := category_ref_of st d |}.

(** *** Handlers of [controllers/docController.js]

    A handler takes the store and the parts of [req] it reads, and
    returns the store it leaves with its reply. *)

Definition by_id (a b : Doc.row) : bool := Doc.id a <=? Doc.id b.

(** The codes of a Doc as a [findAll] lists them. *)
Definition listed_codes (st : Store) (d : Doc.row) : list Code.row :=
  order_by (included_first st) (codes_of st d).

Definition listed (st : Store) (d : Doc.row) : Full.t :=
  {| Full.doc := d; Full.codes := listed_codes st d;
     Full.category := category_ref_of st d;
     Full.uiVariants := variants_of st d |}.

Definition getDocs (st : Store) : Reply (list Full.t) :=
  let docs := order_by by_id (filter main_doc (doc_rows st)) in
  Json 200 (map (listed st) docs).

Definition getDocById (st : Store) (id : string) : Reply Full.t :=
  match Doc_findByPk st (JStr id) with
  | None => Message 404 "Doc not found"
  | Some doc => Json 200 (full st doc)
  end.

(** The [for (const codeEntry of codes)] loop shared by [createDoc] and
    [createVariant]; rows written before a fault stay written. *)
Fixpoint create_codes (st : Store) (codes : list JValue) (owner : Z)
  : Store * option Fault :=
  match codes with
  | [] => (st, None)
  | codeEntry :: rest =>
      match props_of codeEntry with
      | None => (st, Some TypeError)
      | Some entry =>
          match Code_create st [("language", entry "language");
                                ("code", entry "code");
                                ("docId", JNum owner)] with
          | None => (st, Some StoreError)
          | Some (st', _) => create_codes st' rest owner
          end
      end
  end.

Definition create_codes_if_array (st : Store) (codes : JValue) (owner : Z)
  : Store * option Fault :=
  match codes with
  | JArr entries => create_codes st entries owner
  | _ => (st, None)
  end.

Definition fetch_created (st : Store) (id : Z) : option Created.t :=
  option_map (created st) (Doc_findByPk st (JNum id)).

Definition createDoc (st : Store) (body : JValue)
  : Store * Reply (option Created.t) :=
  match props_of body with
  | None => (st, Next TypeError)
  | Some field =>
      let uiName := field "uiName" in
      let uiSubtitle := field "uiSubtitle" in
      let docs := field "docs" in
      let codes := field "codes" in
      let parentId := field "parentId" in
      let categoryId := field "categoryId" in
      match Doc_create st (doc_values uiName uiSubtitle docs
                                      (js_or parentId JNull) categoryId) with
      | None => (st, Next StoreError)
      | Some (st1, newDoc) =>
          match create_codes_if_array st1 codes (Doc.id newDoc) with
          | (st2, Some e) => (st2, Next e)
          | (st2, None) => (st2, Json 201 (fetch_created st2 (Doc.id newDoc)))
          end
      end
  end.

Definition updateDoc (st : Store) (id : string) (body : JValue)
  : Store * Reply Doc.row :=
  match props_of body with
  | None => (st, Next TypeError)
  | Some field =>
      let uiName := field "uiName" in
      let uiSubtitle := field "uiSubtitle" in
      let docs := field "docs" in
      let categoryId := field "categoryId" in
      match Doc_findByPk st (JStr id) with
      | None => (st, Message 404 "Doc not found")
      | Some doc =>
          match Doc_update st doc [("uiName", uiName);
                                   ("uiSubtitle", uiSubtitle);
                                   ("docs", docs);
                                   ("categoryId", categoryId)] with
          | None => (st, Next StoreError)
          | Some (st', doc') => (st', Json 200 doc')
          end
      end
  end.

Definition createVariant (st : Store) (id : string) (body : JValue)
  : Store * Reply (option Created.t) :=
  let parentId := JStr id in
  match props_of body with
  | None => (st, Next TypeError)
  | Some field =>
      let uiName := field "uiName" in
      let uiSubtitle := field "uiSubtitle" in
      let docs := field "docs" in
      let codes := field "codes" in
      let categoryId := field "categoryId" in
      match Doc_findByPk st parentId with
      | None => (st, Message 404 "Parent doc not found")
      | Some parentDoc =>
          match Doc_create st (doc_values uiName uiSubtitle docs
                                          parentId categoryId) with
          | None => (st, Next StoreError)
          | Some (st1, variant) =>
              match create_codes_if_array st1 codes (Doc.id variant) with
              | (st2, Some e) => (st2, Next e)
              | (st2, None) =>
                  (st2, Json 201 (fetch_created st2 (Doc.id variant)))
              end
          end
      end
  end.

(** *** Slug listings *)

(** Ascending order on a nullable sort key. *)
Definition nullable_le {K : Type} (le : K -> K -> bool) (a b : option K) : bool :=
  match a, b with
  | None, None => true
  | None, Some _ => nulls_first
  | Some _, None => negb nulls_first
  | Some x, Some y => le x y
  end.

Definition slim (st : Store) (d : Doc.row) : Slim.t :=
  {| Slim.id := Doc.id d; Slim.uiName := Doc.uiName d;
     Slim.uniqueSlug := Doc.uniqueSlug d;
     Slim.categoryId := Doc.categoryId d;
     Slim.category := category_row_of st d |}.

(** [order: [[{ model: Category, as: "category" }, "categoryName",
    "ASC"]]], names compared character by character. *)
Definition by_category_name (a b : Slim.t) : bool :=
  nullable_le String.leb
    (option_map Category.categoryName (Slim.category a))
    (option_map Category.categoryName (Slim.category b)).

Definition uncategorized : Group.category :=
  {| Group.id := JStr "0"; Group.categoryName := "Uncategorized";
     Group.slug := "uncategorized" |}.

Definition category_object (c : Category.row) : Group.category :=
  {| Group.id := JNum (Category.id c);
     Group.categoryName := Category.categoryName c;
     Group.slug := Category.slug c |}.

Definition child_of (docObj : Slim.t) : Group.child :=
  {| Group.child_id := Slim.id docObj; Group.uiName := Slim.uiName docObj;
     Group.uniqueSlug := Slim.uniqueSlug docObj;
     Group.categoryId := Slim.categoryId docObj |}.

(** [docObj.category || { id: "0", ... }]. *)
Definition bucket_category (docObj : Slim.t) : Group.category :=
  match Slim.category docObj with
  | Some c => category_object c
  | None => uncategorized
  end.

(** The property of [acc] a Doc goes under, [cat.id]. *)
Definition doc_key (docObj : Slim.t) : string :=
  to_property_key (Group.id (bucket_category docObj)).

(** The children a key collects from a sequence of Docs, in order. *)
Definition members (docs : list Slim.t) (k : string) : list Group.child :=
  map child_of (filter (fun d => (doc_key d =? k)%string) docs).

(** The callback of [docs.reduce].  A bucket is an object, hence truthy:
    [!acc[cat.id]] holds exactly when the property is missing. *)
Definition group_step (acc : JsObject.t Group.t) (docObj : Slim.t)
  : JsObject.t Group.t :=
  let cat := bucket_category docObj in
  let key := to_property_key (Group.id cat) in
  let acc1 :=
    match JsObject.get acc key with
    | None => JsObject.set acc key {| Group.cat := cat; Group.children := [] |}
    | Some _ => acc
    end in
  match JsObject.get acc1 key with
  | Some g =>
      JsObject.set acc1 key
        {| Group.cat := Group.cat g;
           Group.children := Group.children g ++ [child_of docObj] |}
  | None => acc1
  end.

Definition grouped (docs : list Slim.t) : JsObject.t Group.t :=
  fold_left group_step docs JsObject.empty.

(** What the accumulator holds once [seen] has been reduced. *)
Record grouped_upto (seen : list Slim.t) (acc : JsObject.t Group.t) : Prop := {
  keys_distinct : NoDup (map fst acc);
  buckets_filled : forall k g, In (k, g) acc ->
    Group.children g = members seen k /\
    exists d, In d seen /\ doc_key d = k /\ Group.cat g = bucket_category d;
  docs_placed : forall d, In d seen -> In (doc_key d) (map fst acc)
}.

Definition slug_docs (st : Store) : list Slim.t :=
  order_by by_category_name (map (slim st) (filter main_doc (doc_rows st))).

Definition getUniqueSlugsGrouped (st : Store) : Reply (list Group.t) :=
  let docs := slug_docs st in
  let result := JsObject.values (grouped docs) in
  Json 200 result.

(** [where: { language: "tailwind" }]. *)
Definition text_is (v : JValue) (s : string) : bool :=
  match v with JStr t => (t =? s)%string | _ => false end.

Definition snippet (c : Code.row) : Snippet.t :=
  {| Snippet.id := Code.id c; Snippet.language := Code.language c;
     Snippet.code := Code.code c |}.

Definition tailwind_codes (st : Store) (d : Doc.row) : list Snippet.t :=
  map snippet
      (order_by (included_first st)
         (filter (fun c => text_is (Code.language c) "tailwind")
                 (codes_of st d))).

(** A row of the listing: the Doc's attributes, its category, and the
    Code rows kept by the [where] of the [codes] include. *)
Definition coded (st : Store) (d : Doc.row) : Coded.t :=
  {| Coded.doc := slim st d; Coded.codes := tailwind_codes st d |}.

Definition by_categoryId (a b : Doc.row) : bool :=
  nullable_le Z.leb (as_key (Doc.categoryId a)) (as_key (Doc.categoryId b)).

(** [req.query.categoryId]: absent, or the string given in the URL. *)
Definition query_value (q : option string) : JValue :=
  match q with Some s => JStr s | None => JUndefined end.

Definition condition (categoryId : JValue) (d : Doc.row) : bool :=
  main_doc d
  && (if truthy categoryId then key_eq (Doc.categoryId d) categoryId else true).

Definition getUniqueSlugsWithCode (st : Store) (query_categoryId : option string)
  : Reply (list Coded.t) :=
  let categoryId := query_value query_categoryId in
  let docs := order_by by_categoryId (filter (condition categoryId) (doc_rows st)) in
  Json 200 (map (coded st) docs).

(** *** The remaining handlers *)

(** Modelled from the spec: [Doc.findOne({ where: { uniqueSlug } })], the
    Doc with that slug, if any. *)
Definition Doc_findOne_uniqueSlug (st : Store) (uniqueSlug : string)
  : option Doc.row :=
  find (fun d => text_is (Doc.uniqueSlug d) uniqueSlug) (doc_rows st).

Definition getDocByUniqueSlug (st : Store) (uniqueSlug : string)
  : Reply Full.t :=
  match Doc_findOne_uniqueSlug st uniqueSlug with
  | None => Message 404 "Doc not found"
  | Some doc => Json 200 (full st doc)
  end.

(** Whether a Doc is a variant of one of the Docs being deleted. *)
Definition descends (doomed : list Z) (d : Doc.row) : bool :=
  existsb (fun i => key_eq (Doc.parentId d) (JNum i)) doomed.

Definition doomed_mem (doomed : list Z) (i : Z) : bool :=
  existsb (Z.eqb i) doomed.

(** The Docs a round of the cascade adds: the variants of the Docs
    already marked. *)
Definition newly_doomed (rows : list Doc.row) (doomed : list Z) : list Z :=
  map Doc.id
      (filter (fun d => descends doomed d && negb (doomed_mem doomed (Doc.id d)))
              rows).

Fixpoint cascade (rounds : nat) (rows : list Doc.row) (doomed : list Z)
  : list Z :=
  match rounds with
  | O => doomed
  | S n => cascade n rows (doomed ++ newly_doomed rows doomed)
  end.

(** Modelled from the spec: [doc.destroy()] removes the Doc and, by the
    relational cascade, its variant Docs (and theirs) and the Code rows
    of every Doc removed.  One round per Doc row reaches them all. *)
Definition Doc_destroy (st : Store) (d : Doc.row) : Store :=
  let doomed :=
    cascade (List.length (doc_rows st)) (doc_rows st) [Doc.id d] in
  {| doc_rows :=
       filter (fun r => negb (doomed_mem doomed (Doc.id r))) (doc_rows st);
     code_rows :=
       filter (fun c => negb (doomed_mem doomed (Code.docId c)))
              (code_rows st);
     category_rows := category_rows st;
     next_doc_id := next_doc_id st;
     next_code_id := next_code_id st |}.

Definition deleteDoc (st : Store) (id : string) : Store * Reply unit :=
  match Doc_findByPk st (JStr id) with
  | None => (st, Message 404 "Doc not found")
  | Some doc => (Doc_destroy st doc, Message 200 "Doc deleted successfully")
  end.

(** What a Doc has under it: the Doc itself, its variants, the variants
    of those, and so on. *)
Inductive descendant (rows : list Doc.row) (root : Z) : Z -> Prop :=
| descendant_root : descendant rows root root
| descendant_variant (d : Doc.row) (p : Z) :
    In d rows ->
    key_eq (Doc.parentId d) (JNum p) = true ->
    descendant rows root p ->
    descendant rows root (Doc.id d).

Local Open Scope list_scope.

(** ** Facts about values and keys *)

Lemma numeral_Number_toString (z : Z) : numeral (Number_toString z) = Some z.
Proof.
  unfold numeral, Number_toString.
  destruct z as [|p|p].
  - reflexivity.
  - rewrite NilZero.isi.
    + cbn [option_map]. now rewrite DecimalZ.of_to.
    + simpl. intros [= H]. now apply (DecimalPos.Unsigned.to_uint_nonnil p).
    + discriminate.
  - rewrite NilZero.isi.
    + cbn [option_map]. now rewrite DecimalZ.of_to.
    + discriminate.
    + simpl. intros [= H]. now apply (DecimalPos.Unsigned.to_uint_nonnil p).
Qed.

Lemma key_eq_num (a b : Z) : key_eq (JNum a) (JNum b) = (a =? b).
Proof. reflexivity. Qed.

Lemma key_eq_param (a b : Z) :
  key_eq (JNum a) (JStr (Number_toString b)) = (a =? b).
Proof. unfold key_eq; simpl. now rewrite numeral_Number_toString. Qed.

Lemma column_supplied (v : JValue) : v <> JUndefined -> column v = v.
Proof. destruct v; simpl; congruence. Qed.

Lemma column_defined (v : JValue) : column v <> JUndefined.
Proof. destruct v; simpl; congruence. Qed.

Lemma js_or_null (v : JValue) : column (js_or v JNull) = js_or v JNull.
Proof. unfold js_or. destruct (truthy v) eqn:E; [|reflexivity]. destruct v; simpl in *; congruence. Qed.

(** ** Ordering clauses *)

Section OrderBy.
Context {A : Type} (le : A -> A -> bool).
Hypothesis le_total : forall a b, le a b = true \/ le b a = true.

Lemma insert_sorted_perm (x : A) (l : list A) :
  Permutation (insert_sorted le x l) (x :: l).
Proof.
  induction l as [|y l IH]; simpl.
  - apply Permutation_refl.
  - destruct (le x y).
    + apply Permutation_refl.
    + eapply perm_trans; [apply perm_skip, IH | apply perm_swap].
Qed.

Lemma order_by_perm (l : list A) : Permutation (order_by le l) l.
Proof.
  induction l as [|x l IH]; simpl.
  - constructor.
  - eapply perm_trans; [apply insert_sorted_perm | now apply perm_skip].
Qed.

Lemma insert_sorted_HdRel (a x : A) (l : list A) :
  in_order le a x -> HdRel (in_order le) a l ->
  HdRel (in_order le) a (insert_sorted le x l).
Proof.
  intros Hax Hal. destruct l as [|y l]; simpl.
  - now constructor.
  - destruct (le x y); constructor; auto. now inversion Hal.
Qed.

Lemma insert_sorted_Sorted (x : A) (l : list A) :
  Sorted (in_order le) l -> Sorted (in_order le) (insert_sorted le x l).
Proof.
  induction l as [|y l IH]; simpl; intros Hs.
  - repeat constructor.
  - destruct (le x y) eqn:E.
    + constructor; auto.
    + inversion Hs; subst. constructor; auto.
      apply insert_sorted_HdRel; auto.
      destruct (le_total x y) as [H|H]; [congruence | exact H].
Qed.

Lemma order_by_Sorted (l : list A) : Sorted (in_order le) (order_by le l).
Proof.
  induction l as [|x l IH]; simpl.
  - constructor.
  - now apply insert_sorted_Sorted.
Qed.

Lemma order_by_In (x : A) (l : list A) : In x (order_by le l) <-> In x l.
Proof.
  split; apply Permutation_in;
    [apply order_by_perm | apply Permutation_sym, order_by_perm].
Qed.

Lemma order_by_length (l : list A) : List.length (order_by le l) = List.length l.
Proof. apply Permutation_length, order_by_perm. Qed.
End OrderBy.

(** ** The model operations *)

Lemma Doc_build_id st values : Doc.id (Doc_build st values) = next_doc_id st.
Proof. unfold Doc_build. now destruct (is_null _). Qed.

Lemma Doc_build_columns st values :
  let row := Doc_build st values in
  Doc.uiName row = column (own_prop values "uiName") /\
  Doc.uiSubtitle row = column (own_prop values "uiSubtitle") /\
  Doc.docs row = column (own_prop values "docs") /\
  Doc.categoryId row = column (own_prop values "categoryId") /\
  Doc.parentId row = column (own_prop values "parentId").
Proof. unfold Doc_build. now destruct (is_null _). Qed.

Lemma Doc_create_spec st values st' row :
  Doc_create st values = Some (st', row) ->
  row = Doc_build st values /\
  doc_constraints st row = true /\
  doc_rows st' = doc_rows st ++ [row] /\
  code_rows st' = code_rows st /\
  category_rows st' = category_rows st /\
  next_doc_id st' = next_doc_id st + 1.
Proof.
  unfold Doc_create. destruct (doc_constraints _ _) eqn:E; [|discriminate].
  intros [= <- <-]. simpl. auto 10.
Qed.

Lemma Code_create_spec st values st' row :
  Code_create st values = Some (st', row) ->
  as_key (own_prop values "docId") = Some (Code.docId row) /\
  Code.language row = column (own_prop values "language") /\
  Code.code row = column (own_prop values "code") /\
  doc_rows st' = doc_rows st /\
  code_rows st' = code_rows st ++ [row] /\
  category_rows st' = category_rows st /\
  next_doc_id st' = next_doc_id st.
Proof.
  unfold Code_create. destruct (as_key _) as [owner|]; [|discriminate].
  destruct (code_constraints _ _); [|discriminate].
  intros [= <- <-]. simpl. auto 10.
Qed.

(** The loop only appends Code rows owned by [owner]; when it completes,
    there is one row per entry, in order. *)
Lemma create_codes_spec codes : forall st owner st' r,
  create_codes st codes owner = (st', r) ->
  doc_rows st' = doc_rows st /\
  category_rows st' = category_rows st /\
  next_doc_id st' = next_doc_id st /\
  exists rows,
    code_rows st' = code_rows st ++ rows /\
    Forall (fun c => Code.docId c = owner) rows /\
    (r = None -> map code_columns rows = map entry_columns codes).
Proof.
  induction codes as [|codeEntry rest IH]; simpl; intros st owner st' r H.
  - injection H as <- <-. repeat split; auto.
    exists []. rewrite app_nil_r. auto.
  - unfold entry_columns.
    destruct (props_of codeEntry) as [entry|].
    2:{ injection H as <- <-. repeat split; auto.
        exists []. rewrite app_nil_r. repeat split; auto. discriminate. }
    destruct (Code_create _ _) as [[st1 row]|] eqn:Ec.
    2:{ injection H as <- <-. repeat split; auto.
        exists []. rewrite app_nil_r. repeat split; auto. discriminate. }
    apply Code_create_spec in Ec. simpl in Ec.
    destruct Ec as (Ho & Hl & Hc & Hd & Hcs & Hcat & Hn).
    apply IH in H. destruct H as (Hd' & Hcat' & Hn' & rows & Hrows & Hown & Hmap).
    repeat split; try congruence.
    exists (row :: rows). repeat split.
    + rewrite Hrows, Hcs, <- app_assoc. reflexivity.
    + constructor; auto. congruence.
    + intros Hr. simpl. rewrite (Hmap Hr). unfold code_columns at 1.
      now rewrite Hl, Hc.
Qed.

Lemma create_codes_if_array_spec codes st owner st' r :
  create_codes_if_array st codes owner = (st', r) ->
  doc_rows st' = doc_rows st /\
  category_rows st' = category_rows st /\
  next_doc_id st' = next_doc_id st /\
  exists rows,
    code_rows st' = code_rows st ++ rows /\
    Forall (fun c => Code.docId c = owner) rows /\
    (r = None ->
     forall entries, codes = JArr entries ->
                     map code_columns rows = map entry_columns entries) /\
    (isArray codes = false -> rows = []).
Proof.
  intros H.
  assert (Hskip : isArray codes = false -> (st, @None Fault) = (st', r) ->
    doc_rows st' = doc_rows st /\ category_rows st' = category_rows st /\
    next_doc_id st' = next_doc_id st /\
    exists rows, code_rows st' = code_rows st ++ rows /\
      Forall (fun c => Code.docId c = owner) rows /\
      (r = None -> forall entries, codes = JArr entries ->
         map code_columns rows = map entry_columns entries) /\
      (isArray codes = false -> rows = [])).
  { intros Hna [= <- <-]. repeat split; auto. exists []. rewrite app_nil_r.
    repeat split; auto. intros _ entries ->. discriminate. }
  destruct codes; simpl in H; try (now apply Hskip).
  clear Hskip.
  apply create_codes_spec in H.
  destruct H as (Hd & Hcat & Hn & rows & Hrows & Hown & Hmap).
  repeat split; auto. exists rows. repeat split; auto.
  - intros Hr entries [= <-]. auto.
  - discriminate.
Qed.

(** ** Creating a Doc with its codes *)

Lemma find_app_fresh {A : Type} (f : A -> bool) (l : list A) (x : A) :
  Forall (fun y => f y = false) l -> f x = true -> find f (l ++ [x]) = Some x.
Proof.
  induction 1 as [|y l Hy _ IH]; simpl; intros Hx.
  - now rewrite Hx.
  - rewrite Hy. auto.
Qed.

Lemma filter_none {A : Type} (f : A -> bool) (l : list A) :
  Forall (fun y => f y = false) l -> filter f l = [].
Proof. induction 1 as [|y l Hy _ IH]; simpl; [|rewrite Hy]; auto. Qed.

Lemma filter_all {A : Type} (f : A -> bool) (l : list A) :
  Forall (fun y => f y = true) l -> filter f l = l.
Proof. induction 1 as [|y l Hy _ IH]; simpl; [|rewrite Hy, IH]; auto. Qed.

Lemma find_pointwise {A : Type} (f g : A -> bool) (l : list A) :
  (forall x, f x = g x) -> find f l = find g l.
Proof. intros E. induction l as [|x l IH]; simpl; [|rewrite E, IH]; auto. Qed.

Lemma Doc_findByPk_param st (z : Z) :
  Doc_findByPk st (JStr (Number_toString z)) = Doc_findByPk st (JNum z).
Proof.
  unfold Doc_findByPk. apply find_pointwise. intros d.
  now rewrite key_eq_param, key_eq_num.
Qed.

Lemma Doc_findByPk_In st key d :
  Doc_findByPk st key = Some d ->
  In d (doc_rows st) /\ key_eq (JNum (Doc.id d)) key = true.
Proof. apply find_some. Qed.

(** After [Doc.create] and the codes loop, the new key finds the new row
    and the row owns exactly the Code rows the loop wrote. *)
Lemma inserted_doc st values codes st1 newDoc st2 :
  store_ok st ->
  Doc_create st values = Some (st1, newDoc) ->
  create_codes_if_array st1 codes (Doc.id newDoc) = (st2, None) ->
  newDoc = Doc_build st values /\
  doc_rows st2 = doc_rows st ++ [newDoc] /\
  Doc_findByPk st2 (JNum (Doc.id newDoc)) = Some newDoc /\
  (forall entries, codes = JArr entries ->
     map code_columns (codes_of st2 newDoc) = map entry_columns entries) /\
  (isArray codes = false ->
     codes_of st2 newDoc = [] /\ code_rows st2 = code_rows st).
Proof.
  intros [Hdocs Hcodes] Hc Hl.
  apply Doc_create_spec in Hc.
  destruct Hc as (Hrow & _ & Hd1 & Hc1 & _ & _).
  apply create_codes_if_array_spec in Hl.
  destruct Hl as (Hd2 & _ & _ & rows & Hc2 & Hown & Hmap & Hnone).
  assert (Hid : Doc.id newDoc = next_doc_id st).
  { rewrite Hrow. apply Doc_build_id. }
  assert (Hof : codes_of st2 newDoc = rows).
  { unfold codes_of. rewrite Hc2, Hc1, filter_app.
    rewrite filter_none, filter_all; auto.
    - eapply Forall_impl; [|exact Hown]. intros c Hcq; simpl in Hcq.
      rewrite Hcq. apply Z.eqb_refl.
    - eapply Forall_impl; [|exact Hcodes]. intros c Hlt; simpl in Hlt.
      apply Z.eqb_neq. lia. }
  repeat split; auto.
  - congruence.
  - unfold Doc_findByPk. rewrite Hd2, Hd1. apply find_app_fresh.
    + eapply Forall_impl; [|exact Hdocs]. intros d Hlt; simpl in Hlt.
      rewrite key_eq_num. apply Z.eqb_neq. lia.
    + rewrite key_eq_num. apply Z.eqb_refl.
  - intros entries He. rewrite Hof. now apply Hmap.
  - rewrite Hof. auto.
  - rewrite Hc2, Hc1, (Hnone H). apply app_nil_r.
Qed.

Lemma entry_columns_code_entry (lc : JValue * JValue) :
  supplied (fst lc) -> supplied (snd lc) -> entry_columns (code_entry lc) = lc.
Proof.
  destruct lc as [l c]; unfold supplied; simpl; intros Hl Hc.
  unfold entry_columns, code_entry, own_prop; simpl.
  now rewrite !column_supplied.
Qed.

Lemma entry_columns_code_entries (codes : list (JValue * JValue)) :
  Forall (fun lc => supplied (fst lc) /\ supplied (snd lc)) codes ->
  map entry_columns (map code_entry codes) = codes.
Proof.
  induction 1 as [|lc codes [Hl Hc] _ IH]; simpl; [reflexivity|].
  now rewrite entry_columns_code_entry, IH.
Qed.

Lemma createDoc_created st body field st' v :
  props_of body = Some field ->
  createDoc st body = (st', Json 201 v) ->
  exists st1 newDoc,
    Doc_create st (doc_values (field "uiName") (field "uiSubtitle")
                     (field "docs") (js_or (field "parentId") JNull)
                     (field "categoryId")) = Some (st1, newDoc) /\
    create_codes_if_array st1 (field "codes") (Doc.id newDoc) = (st', None) /\
    v = fetch_created st' (Doc.id newDoc).
Proof.
  unfold createDoc. intros ->.
  destruct (Doc_create _ _) as [[st1 newDoc]|]; [|discriminate].
  destruct (create_codes_if_array _ _ _) as [st2 [e|]] eqn:El; [discriminate|].
  intros [= <- <-]. eauto.
Qed.

Lemma createVariant_created st id body field st' v :
  props_of body = Some field ->
  createVariant st id body = (st', Json 201 v) ->
  exists parentDoc st1 variant,
    Doc_findByPk st (JStr id) = Some parentDoc /\
    Doc_create st (doc_values (field "uiName") (field "uiSubtitle")
                     (field "docs") (JStr id) (field "categoryId"))
      = Some (st1, variant) /\
    create_codes_if_array st1 (field "codes") (Doc.id variant) = (st', None) /\
    v = fetch_created st' (Doc.id variant).
Proof.
  unfold createVariant. intros ->.
  destruct (Doc_findByPk _ _) as [parentDoc|]; [|discriminate].
  destruct (Doc_create _ _) as [[st1 variant]|]; [|discriminate].
  destruct (create_codes_if_array _ _ _) as [st2 [e|]] eqn:El; [discriminate|].
  intros [= <- <-]. eauto 10.
Qed.

(** C3.  After [createDoc] has answered 201 for a payload that supplies
    uiName, uiSubtitle, docs, categoryId and a sequence of
    [{ language, code }] entries, [getDocById] on the id of the returned
    Doc answers 200 with a Doc that carries those four inputs and one
    Code row per entry, each with the entry's language and code. *)
Theorem createDoc_then_getDocById
    st body field (codes : list (JValue * JValue)) st' v :
  store_ok st ->
  props_of body = Some field ->
  supplied (field "uiName") ->
  supplied (field "uiSubtitle") ->
  supplied (field "docs") ->
  supplied (field "categoryId") ->
  field "codes" = JArr (map code_entry codes) ->
  Forall (fun lc => supplied (fst lc) /\ supplied (snd lc)) codes ->
  createDoc st body = (st', Json 201 (Some v)) ->
  exists d,
    getDocById st' (Number_toString (Doc.id (Created.doc v))) = Json 200 d /\
    Doc.id (Full.doc d) = Doc.id (Created.doc v) /\
    Doc.uiName (Full.doc d) = field "uiName" /\
    Doc.uiSubtitle (Full.doc d) = field "uiSubtitle" /\
    Doc.docs (Full.doc d) = field "docs" /\
    Doc.categoryId (Full.doc d) = field "categoryId" /\
    map code_columns (Full.codes d) = codes.
Proof.
  intros Hok Hb Hn Hs Hd Hc Hcodes Hsup Hcall.
  destruct (createDoc_created _ _ _ _ _ Hb Hcall)
    as (st1 & newDoc & Hcreate & Hloop & Hv).
  destruct (inserted_doc _ _ _ _ _ _ Hok Hcreate Hloop)
    as (Hrow & _ & Hfind & Hmap & _).
  unfold fetch_created in Hv. rewrite Hfind in Hv. injection Hv as ->.
  simpl. exists (full st' newDoc).
  unfold getDocById. rewrite Doc_findByPk_param, Hfind. simpl.
  pose proof (Doc_build_columns st
    (doc_values (field "uiName") (field "uiSubtitle") (field "docs")
                (js_or (field "parentId") JNull) (field "categoryId")))
    as Hcols.
  rewrite <- Hrow in Hcols. simpl in Hcols.
  destruct Hcols as (Hu & Hsub & Hdocs & Hcat & _).
  unfold own_prop in Hu, Hsub, Hdocs, Hcat. simpl in Hu, Hsub, Hdocs, Hcat.
  rewrite Hu, Hsub, Hdocs, Hcat, !column_supplied by assumption.
  repeat split; auto.
  rewrite (Hmap _ Hcodes). now apply entry_columns_code_entries.
Qed.

(** C4.  When the parent exists and [createVariant] answers 201, the
    returned Doc has [parentId] equal to the id of the route, whatever
    the payload holds (its own [parentId] included), and that value
    designates the parent row. *)
Theorem createVariant_forces_parentId st id body parentDoc st' v :
  store_ok st ->
  Doc_findByPk st (JStr id) = Some parentDoc ->
  createVariant st id body = (st', Json 201 (Some v)) ->
  Doc.parentId (Created.doc v) = JStr id /\
  key_eq (Doc.parentId (Created.doc v)) (JNum (Doc.id parentDoc)) = true /\
  In (Created.doc v) (doc_rows st').
Proof.
  intros Hok Hparent Hcall.
  destruct (props_of body) as [field|] eqn:Hb.
  2:{ unfold createVariant in Hcall. rewrite Hb in Hcall. discriminate. }
  destruct (createVariant_created _ _ _ _ _ _ Hb Hcall)
    as (p & st1 & variant & _ & Hcreate & Hloop & Hv).
  destruct (inserted_doc _ _ _ _ _ _ Hok Hcreate Hloop)
    as (Hrow & Hrows & Hfind & _ & _).
  unfold fetch_created in Hv. rewrite Hfind in Hv. injection Hv as ->.
  simpl.
  pose proof (Doc_build_columns st
    (doc_values (field "uiName") (field "uiSubtitle") (field "docs")
                (JStr id) (field "categoryId"))) as Hcols.
  rewrite <- Hrow in Hcols. simpl in Hcols.
  destruct Hcols as (_ & _ & _ & _ & Hp).
  unfold own_prop in Hp; simpl in Hp.
  repeat split.
  - exact Hp.
  - rewrite Hp. apply Doc_findByPk_In in Hparent.
    destruct Hparent as [_ Hk]. unfold key_eq in *. simpl in *.
    destruct (numeral id); [|discriminate].
    now rewrite Z.eqb_sym.
  - rewrite Hrows. apply in_or_app. right. now left.
Qed.

Lemma createVariant_missing_parent st id body field :
  props_of body = Some field ->
  Doc_findByPk st (JStr id) = None ->
  createVariant st id body = (st, Message 404 "Parent doc not found").
Proof.
  intros Hb Hnone. unfold createVariant. now rewrite Hb, Hnone.
Qed.

(** C5.  When no Doc has the id of the route, [createVariant] answers
    404 with "Parent doc not found" and leaves the store as it was: no
    Doc row and no Code row is written. *)
Theorem createVariant_parent_not_found st id body field :
  props_of body = Some field ->
  Doc_findByPk st (JStr id) = None ->
  createVariant st id body = (st, Message 404 "Parent doc not found").
Proof. exact (createVariant_missing_parent st id body field). Qed.

Lemma createDoc_accepted st body field :
  store_ok st ->
  props_of body = Some field ->
  isArray (field "codes") = false ->
  doc_constraints st
    (Doc_build st (doc_values (field "uiName") (field "uiSubtitle")
                     (field "docs") (js_or (field "parentId") JNull)
                     (field "categoryId"))) = true ->
  exists st' v,
    createDoc st body = (st', Json 201 (Some v)) /\
    Created.doc v =
      Doc_build st (doc_values (field "uiName") (field "uiSubtitle")
                      (field "docs") (js_or (field "parentId") JNull)
                      (field "categoryId")) /\
    Created.codes v = [] /\
    code_rows st' = code_rows st /\
    doc_rows st' = doc_rows st ++ [Created.doc v].
Proof.
  intros Hok Hb Hna Hacc.
  unfold createDoc. rewrite Hb.
  destruct (Doc_create _ _) as [[st1 newDoc]|] eqn:Hcreate.
  2:{ unfold Doc_create in Hcreate. now rewrite Hacc in Hcreate. }
  destruct (create_codes_if_array st1 (field "codes") (Doc.id newDoc))
    as [st2 r] eqn:Hloop.
  assert (r = None) as ->.
  { destruct (field "codes"); simpl in Hloop; try discriminate;
      now injection Hloop. }
  destruct (inserted_doc _ _ _ _ _ _ Hok Hcreate Hloop)
    as (Hrow & Hrows & Hfind & _ & Hnone).
  destruct (Hnone Hna) as [Hcodes Hsame].
  exists st2, (created st2 newDoc).
  unfold fetch_created. rewrite Hfind. simpl.
  repeat split; auto.
Qed.

(** C9.  When [codes] is absent or is not an array, [createDoc] raises
    nothing about it: if the store accepts the Doc row, the reply is 201
    with a Doc that has no Code snippet, the Doc row is the only row
    written and the Code table is untouched. *)
Theorem createDoc_codes_not_array st body field :
  store_ok st ->
  props_of body = Some field ->
  isArray (field "codes") = false ->
  doc_constraints st
    (Doc_build st (doc_values (field "uiName") (field "uiSubtitle")
                     (field "docs") (js_or (field "parentId") JNull)
                     (field "categoryId"))) = true ->
  exists st' v,
    createDoc st body = (st', Json 201 (Some v)) /\
    Created.codes v = [] /\
    code_rows st' = code_rows st /\
    doc_rows st' = doc_rows st ++ [Created.doc v].
Proof.
  intros Hok Hb Hna Hacc.
  destruct (createDoc_accepted _ _ _ Hok Hb Hna Hacc)
    as (st' & v & Hcall & _ & Hcodes & Hc & Hd).
  exists st', v. auto.
Qed.

Lemma createDoc_stored_parentId st body field st' v :
  store_ok st ->
  props_of body = Some field ->
  createDoc st body = (st', Json 201 (Some v)) ->
  Doc.parentId (Created.doc v) = js_or (field "parentId") JNull.
Proof.
  intros Hok Hb Hcall.
  destruct (createDoc_created _ _ _ _ _ Hb Hcall)
    as (st1 & newDoc & Hcreate & Hloop & Hv).
  destruct (inserted_doc _ _ _ _ _ _ Hok Hcreate Hloop)
    as (Hrow & _ & Hfind & _ & _).
  unfold fetch_created in Hv. rewrite Hfind in Hv. injection Hv as ->.
  simpl. rewrite Hrow.
  destruct (Doc_build_columns st
    (doc_values (field "uiName") (field "uiSubtitle") (field "docs")
                (js_or (field "parentId") JNull) (field "categoryId")))
    as (_ & _ & _ & _ & Hp).
  rewrite Hp. unfold own_prop; simpl. apply js_or_null.
Qed.

(** C10.  The Doc stored by [createDoc] has the payload's [parentId] when
    that value is truthy and null otherwise (0 included).  [createDoc]
    never looks the parent up: with a payload whose [parentId] is the id
    of no Doc, a row the store accepts is created as a variant of that
    missing parent, where [createVariant] on the same id answers 404. *)
Theorem createDoc_parentId_unchecked st body field :
  store_ok st ->
  props_of body = Some field ->
  (forall st' v,
      createDoc st body = (st', Json 201 (Some v)) ->
      Doc.parentId (Created.doc v)
      = (if truthy (field "parentId") then field "parentId" else JNull)) /\
  (field "parentId" = JNum 0 -> js_or (field "parentId") JNull = JNull) /\
  (forall z,
      field "parentId" = JNum z ->
      z <> 0 ->
      Doc_findByPk st (JNum z) = None ->
      isArray (field "codes") = false ->
      doc_constraints st
        (Doc_build st (doc_values (field "uiName") (field "uiSubtitle")
                         (field "docs") (JNum z) (field "categoryId")))
        = true ->
      exists st' v,
        createDoc st body = (st', Json 201 (Some v)) /\
        Doc.parentId (Created.doc v) = JNum z /\
        main_doc (Created.doc v) = false /\
        In (Created.doc v) (doc_rows st') /\
        createVariant st (Number_toString z) body
        = (st, Message 404 "Parent doc not found")).
Proof.
  intros Hok Hb. split; [|split].
  - intros st' v Hcall.
    now rewrite (createDoc_stored_parentId _ _ _ _ _ Hok Hb Hcall).
  - now intros ->.
  - intros z Hp Hz Hmissing Hna Hacc.
    assert (Hor : js_or (field "parentId") JNull = JNum z).
    { rewrite Hp. unfold js_or; simpl.
      destruct (Z.eqb_spec z 0); [contradiction|reflexivity]. }
    rewrite <- Hor in Hacc.
    destruct (createDoc_accepted _ _ _ Hok Hb Hna Hacc)
      as (st' & v & Hcall & _ & _ & _ & Hrows).
    pose proof (createDoc_stored_parentId _ _ _ _ _ Hok Hb Hcall) as Hpar.
    rewrite Hor in Hpar.
    exists st', v. repeat split; auto.
    + unfold main_doc. now rewrite Hpar.
    + rewrite Hrows. apply in_or_app. right. now left.
    + apply createVariant_missing_parent with (field := field); auto.
      now rewrite Doc_findByPk_param.
Qed.

(** ** Updating a Doc *)

Lemma find_map_same {A : Type} (f : A -> bool) (g : A -> A) (l : list A) :
  (forall x, f (g x) = f x) -> find f (map g l) = option_map g (find f l).
Proof.
  intros E. induction l as [|x l IH]; simpl; [reflexivity|].
  rewrite E. now destruct (f x).
Qed.

(** C7.  [updateDoc] on an existing id, whatever the payload (including
    one with [parentId] or [uniqueSlug]) and whether or not the store
    accepts the change, leaves the Doc of that id with the [parentId],
    [uniqueSlug] and [id] it had; a Doc returned with 200 shows the
    same. *)
Theorem updateDoc_keeps_parentId_and_uniqueSlug st id body doc st' reply :
  Doc_findByPk st (JStr id) = Some doc ->
  updateDoc st id body = (st', reply) ->
  (exists doc',
      Doc_findByPk st' (JStr id) = Some doc' /\
      Doc.id doc' = Doc.id doc /\
      Doc.parentId doc' = Doc.parentId doc /\
      Doc.uniqueSlug doc' = Doc.uniqueSlug doc) /\
  (forall sent, reply = Json 200 sent ->
      Doc.id sent = Doc.id doc /\
      Doc.parentId sent = Doc.parentId doc /\
      Doc.uniqueSlug sent = Doc.uniqueSlug doc).
Proof.
  intros Hfind. unfold updateDoc.
  destruct (props_of body) as [field|].
  2:{ intros [= <- <-]. split; [eauto|discriminate]. }
  rewrite Hfind. unfold Doc_update.
  set (values := [("uiName", field "uiName");
                  ("uiSubtitle", field "uiSubtitle");
                  ("docs", field "docs");
                  ("categoryId", field "categoryId")]).
  assert (Hkeep : Doc.id (Doc_assign doc values) = Doc.id doc /\
                  Doc.parentId (Doc_assign doc values) = Doc.parentId doc /\
                  Doc.uniqueSlug (Doc_assign doc values) = Doc.uniqueSlug doc).
  { repeat split. }
  destruct (doc_constraints st (Doc_assign doc values)).
  2:{ intros [= <- <-]. split; [eauto|discriminate]. }
  intros [= <- <-]. split.
  - exists (Doc_assign doc values). split; [|exact Hkeep].
    unfold Doc_findByPk in *. simpl.
    rewrite find_map_same.
    + rewrite Hfind. simpl. now rewrite Z.eqb_refl.
    + intros r. destruct (Z.eqb_spec (Doc.id r) (Doc.id doc)) as [E|E].
      * simpl. now rewrite E.
      * reflexivity.
  - intros sent [= <-]. exact Hkeep.
Qed.

(** ** Listings *)

Lemma StronglySorted_weaken {A : Type} (R R' : A -> A -> Prop) (l : list A) :
  (forall a b, R a b -> R' a b) -> StronglySorted R l -> StronglySorted R' l.
Proof.
  intros HR. induction 1 as [|a l _ IH Hall]; constructor; auto.
  eapply Forall_impl; [|exact Hall]. auto.
Qed.

Lemma order_by_StronglySorted {A : Type} (le : A -> A -> bool) (l : list A) :
  (forall a b, le a b = true \/ le b a = true) ->
  (forall a b c, le a b = true -> le b c = true -> le a c = true) ->
  StronglySorted (fun a b => le a b = true) (order_by le l).
Proof.
  intros Htot Htrans. apply Sorted_StronglySorted.
  - intros a b c. apply Htrans.
  - now apply order_by_Sorted.
Qed.



Lemma nullable_le_total {K : Type} (le : K -> K -> bool) :
  (forall x y, le x y = true \/ le y x = true) ->
  forall a b, nullable_le le a b = true \/ nullable_le le b a = true.
Proof.
  intros Htot [x|] [y|]; simpl; auto; destruct nulls_first; auto.
Qed.

Lemma nullable_le_trans {K : Type} (le : K -> K -> bool) :
  (forall x y z, le x y = true -> le y z = true -> le x z = true) ->
  forall a b c, nullable_le le a b = true -> nullable_le le b c = true ->
                nullable_le le a c = true.
Proof.
  intros Htr [x|] [y|] [z|]; simpl; eauto; destruct nulls_first; auto;
    discriminate.
Qed.

Lemma by_categoryId_total a b :
  by_categoryId a b = true \/ by_categoryId b a = true.
Proof.
  apply nullable_le_total. intros x y. rewrite !Z.leb_le. lia.
Qed.

Lemma by_categoryId_trans a b c :
  by_categoryId a b = true -> by_categoryId b c = true ->
  by_categoryId a c = true.
Proof.
  apply nullable_le_trans. intros x y z. rewrite !Z.leb_le. lia.
Qed.

Lemma codes_of_In st d c :
  In c (codes_of st d) <-> In c (code_rows st) /\ Code.docId c = Doc.id d.
Proof. unfold codes_of. now rewrite filter_In, Z.eqb_eq. Qed.

Lemma listed_codes_perm st d : Permutation (listed_codes st d) (codes_of st d).
Proof. apply order_by_perm. Qed.

Lemma listed_same_entry st d : same_entry (listed st d) (full st d).
Proof.
  unfold same_entry, same_variant. simpl.
  split; [reflexivity|]. split; [apply listed_codes_perm|].
  split; [reflexivity|]. split; intros w Hw; exists w; auto.
Qed.




Lemma main_doc_null d : main_doc d = true <-> Doc.parentId d = JNull.
Proof.
  unfold main_doc. destruct (Doc.parentId d); simpl; split;
    congruence.
Qed.


Lemma text_is_eq v s : text_is v s = true <-> v = JStr s.
Proof.
  destruct v; simpl; try (split; [discriminate|congruence]).
  rewrite String.eqb_eq. split; congruence.
Qed.

Lemma tailwind_rows_In st d c :
  In c (filter (fun c => text_is (Code.language c) "tailwind") (codes_of st d)) <->
  In c (code_rows st) /\ Code.docId c = Doc.id d /\
  Code.language c = JStr "tailwind".
Proof. clear included_first. rewrite filter_In, codes_of_In, text_is_eq. tauto. Qed.

Lemma tailwind_rows_filter st d :
  filter (fun c => text_is (Code.language c) "tailwind") (codes_of st d) =
  filter (fun c => (Code.docId c =? Doc.id d) && text_is (Code.language c) "tailwind")
         (code_rows st).
Proof.
  unfold codes_of. induction (code_rows st) as [|c l IH]; [reflexivity|].
  simpl. destruct (Code.docId c =? Doc.id d); simpl; rewrite IH;
    reflexivity.
Qed.

Lemma Forall2_map_self {A B : Type} (P : B -> A -> Prop) (f : A -> B) (l : list A) :
  (forall x, In x l -> P (f x) x) -> Forall2 P (map f l) l.
Proof.
  induction l as [|x l IH]; intros H; simpl; constructor.
  - apply H. now left.
  - apply IH. intros y Hy. apply H. now right.
Qed.

Lemma category_row_of_Some st d c :
  category_row_of st d = Some c ->
  In c (category_rows st) /\
  key_eq (JNum (Category.id c)) (Doc.categoryId d) = true.
Proof. unfold category_row_of. intros E. now apply find_some in E. Qed.

Lemma category_row_of_None st d :
  category_row_of st d = None ->
  forall c, In c (category_rows st) ->
            key_eq (JNum (Category.id c)) (Doc.categoryId d) = false.
Proof.
  unfold category_row_of. intros E c Hin. exact (find_none _ _ E c Hin).
Qed.

Lemma tailwind_codes_In st d s :
  In s (tailwind_codes st d) <->
  exists c, In c (code_rows st) /\ Code.docId c = Doc.id d /\
            Code.language c = JStr "tailwind" /\ s = snippet c.
Proof.
  unfold tailwind_codes. rewrite in_map_iff. split.
  - intros (c & <- & Hin). apply order_by_In, tailwind_rows_In in Hin.
    exists c. tauto.
  - intros (c & Hin & Hown & Hlang & ->). exists c. split; auto.
    apply order_by_In, tailwind_rows_In. auto.
Qed.

Lemma tailwind_codes_none st d :
  (forall c, In c (code_rows st) -> Code.docId c = Doc.id d ->
             Code.language c <> JStr "tailwind") ->
  tailwind_codes st d = [].
Proof.
  intros Hno. unfold tailwind_codes. rewrite filter_none; [reflexivity|].
  apply Forall_forall. intros c Hin. apply codes_of_In in Hin.
  destruct (text_is (Code.language c) "tailwind") eqn:E; [|reflexivity].
  apply text_is_eq in E. destruct Hin as [Hin Hown].
  now destruct (Hno c Hin Hown).
Qed.

Lemma condition_spec (q : option string) (d : Doc.row) :
  condition (query_value q) d = true <->
  Doc.parentId d = JNull /\
  match q with
  | Some s => s = "" \/ key_eq (Doc.categoryId d) (JStr s) = true
  | None => True
  end.
Proof.
  unfold condition. rewrite andb_true_iff, main_doc_null.
  destruct q as [s|]; simpl; [|tauto].
  destruct (String.eqb_spec s ""); simpl; intuition congruence.
Qed.

(** C6.  [getUniqueSlugsWithCode] answers 200 with one entry per main
    Doc (only those of the given category when the query names one), in
    ascending order of [categoryId].  An entry carries the Doc's [id],
    [uiName], [uniqueSlug] and [categoryId] and the row of its category;
    its snippets are the [id], [language] and [code] of the Doc's Code
    rows whose language is "tailwind", each row once and no other; a
    Doc that has none is still listed, with an empty list. *)
Theorem getUniqueSlugsWithCode_lists_every_main_doc st (q : option string) :
  exists entries rows,
    getUniqueSlugsWithCode st q = Json 200 entries /\
    Permutation rows (filter (condition (query_value q)) (doc_rows st)) /\
    (forall d, In d rows <->
       In d (doc_rows st) /\ Doc.parentId d = JNull /\
       match q with
       | Some s => s = "" \/ key_eq (Doc.categoryId d) (JStr s) = true
       | None => True
       end) /\
    StronglySorted (fun a b => by_categoryId a b = true) rows /\
    StronglySorted
      (fun a b => forall x y, as_key (Doc.categoryId a) = Some x ->
                              as_key (Doc.categoryId b) = Some y -> x <= y)
      rows /\
    StronglySorted
      (fun a b => forall x y,
         as_key (Slim.categoryId (Coded.doc a)) = Some x ->
         as_key (Slim.categoryId (Coded.doc b)) = Some y -> x <= y)
      entries /\
    Forall2
      (fun e d =>
         Slim.id (Coded.doc e) = Doc.id d /\
         Slim.uiName (Coded.doc e) = Doc.uiName d /\
         Slim.uniqueSlug (Coded.doc e) = Doc.uniqueSlug d /\
         Slim.categoryId (Coded.doc e) = Doc.categoryId d /\
         (forall c, Slim.category (Coded.doc e) = Some c ->
            In c (category_rows st) /\
            key_eq (JNum (Category.id c)) (Doc.categoryId d) = true) /\
         (Slim.category (Coded.doc e) = None ->
            forall c, In c (category_rows st) ->
              key_eq (JNum (Category.id c)) (Doc.categoryId d) = false) /\
         (exists cs,
            Forall2 (fun s c => Snippet.id s = Code.id c /\
                                Snippet.language s = Code.language c /\
                                Snippet.code s = Code.code c)
                    (Coded.codes e) cs /\
            Permutation cs
              (filter (fun c => (Code.docId c =? Doc.id d)
                                && text_is (Code.language c) "tailwind")
                      (code_rows st)) /\
            (forall c, In c cs <->
               In c (code_rows st) /\ Code.docId c = Doc.id d /\
               Code.language c = JStr "tailwind")) /\
         (forall s, In s (Coded.codes e) ->
            Snippet.language s = JStr "tailwind") /\
         ((forall c, In c (code_rows st) -> Code.docId c = Doc.id d ->
                     Code.language c <> JStr "tailwind") ->
          Coded.codes e = []))
      entries rows.
Proof.
  set (rows := order_by by_categoryId
                 (filter (condition (query_value q)) (doc_rows st))).
  exists (map (coded st) rows), rows.
  assert (Hsorted : StronglySorted (fun a b => by_categoryId a b = true) rows).
  { apply order_by_StronglySorted;
      [apply by_categoryId_total | apply by_categoryId_trans]. }
  assert (Hkeys : StronglySorted
            (fun a b => forall x y, as_key (Doc.categoryId a) = Some x ->
                                    as_key (Doc.categoryId b) = Some y -> x <= y)
            rows).
  { eapply StronglySorted_weaken; [|exact Hsorted].
    intros a b Hab x y Hx Hy. unfold by_categoryId in Hab.
    rewrite Hx, Hy in Hab. simpl in Hab. now apply Z.leb_le. }
  split; [reflexivity|]. split; [apply order_by_perm|].
  split; [|split; [exact Hsorted|split; [exact Hkeys|split]]].
  - intros d. unfold rows. rewrite order_by_In, filter_In, condition_spec.
    tauto.
  - clear Hsorted. induction Hkeys as [|a l _ IH Hall]; simpl; constructor.
    + exact IH.
    + apply Forall_forall. intros e He. apply in_map_iff in He.
      destruct He as (b & <- & Hb). simpl.
      rewrite Forall_forall in Hall. exact (Hall b Hb).
  - apply Forall2_map_self. intros d _. simpl.
    repeat (split; [reflexivity|]).
    split; [intros c; apply category_row_of_Some|].
    split; [apply category_row_of_None|].
    split; [|split].
    + exists (order_by (included_first st)
                (filter (fun c => text_is (Code.language c) "tailwind")
                        (codes_of st d))).
      split; [|split].
      * unfold tailwind_codes. apply Forall2_map_self. intros c _.
        simpl. auto.
      * rewrite <- tailwind_rows_filter. apply order_by_perm.
      * intros c. rewrite order_by_In. apply tailwind_rows_In.
    + intros s Hs. apply tailwind_codes_In in Hs.
      destruct Hs as (c & _ & _ & Hlang & ->). exact Hlang.
    + apply tailwind_codes_none.
Qed.

(** ** The store invariant is kept by every handler *)

Lemma Doc_create_store_ok st values st' row :
  store_ok st -> Doc_create st values = Some (st', row) -> store_ok st'.
Proof.
  intros [Hd Hc] H. apply Doc_create_spec in H.
  destruct H as (Hrow & _ & Hrows & Hcodes & _ & Hnext).
  split; rewrite Hnext.
  - rewrite Hrows. apply Forall_app. split.
    + eapply Forall_impl; [|exact Hd]. simpl. intros; lia.
    + constructor; [|constructor]. rewrite Hrow, Doc_build_id. lia.
  - rewrite Hcodes. eapply Forall_impl; [|exact Hc]. simpl. intros; lia.
Qed.

Lemma create_codes_if_array_store_ok st codes owner st' r :
  store_ok st -> owner < next_doc_id st ->
  create_codes_if_array st codes owner = (st', r) -> store_ok st'.
Proof.
  intros [Hd Hc] Hlt H. apply create_codes_if_array_spec in H.
  destruct H as (Hrows & _ & Hnext & rows & Hcodes & Hown & _).
  split; rewrite Hnext.
  - now rewrite Hrows.
  - rewrite Hcodes. apply Forall_app. split; [exact Hc|].
    eapply Forall_impl; [|exact Hown]. simpl. intros c ->. exact Hlt.
Qed.

Lemma inserted_store_ok st values codes st1 newDoc st2 r :
  store_ok st ->
  Doc_create st values = Some (st1, newDoc) ->
  create_codes_if_array st1 codes (Doc.id newDoc) = (st2, r) ->
  store_ok st2.
Proof.
  intros Hok Hcreate Hloop.
  pose proof (Doc_create_store_ok _ _ _ _ Hok Hcreate) as Hok1.
  apply Doc_create_spec in Hcreate.
  destruct Hcreate as (Hrow & _ & _ & _ & _ & Hnext).
  eapply create_codes_if_array_store_ok; [exact Hok1| |exact Hloop].
  rewrite Hnext, Hrow, Doc_build_id. lia.
Qed.

Lemma createDoc_store_ok st body st' reply :
  store_ok st -> createDoc st body = (st', reply) -> store_ok st'.
Proof.
  intros Hok. unfold createDoc.
  destruct (props_of body) as [field|]; [|now intros [= <- _]].
  destruct (Doc_create _ _) as [[st1 newDoc]|] eqn:Hcreate;
    [|now intros [= <- _]].
  destruct (create_codes_if_array _ _ _) as [st2 r] eqn:Hloop.
  pose proof (inserted_store_ok _ _ _ _ _ _ _ Hok Hcreate Hloop) as Hok2.
  destruct r; now intros [= <- _].
Qed.

Lemma createVariant_store_ok st id body st' reply :
  store_ok st -> createVariant st id body = (st', reply) -> store_ok st'.
Proof.
  intros Hok. unfold createVariant.
  destruct (props_of body) as [field|]; [|now intros [= <- _]].
  destruct (Doc_findByPk _ _) as [parentDoc|]; [|now intros [= <- _]].
  destruct (Doc_create _ _) as [[st1 variant]|] eqn:Hcreate;
    [|now intros [= <- _]].
  destruct (create_codes_if_array _ _ _) as [st2 r] eqn:Hloop.
  pose proof (inserted_store_ok _ _ _ _ _ _ _ Hok Hcreate Hloop) as Hok2.
  destruct r; now intros [= <- _].
Qed.

Lemma updateDoc_store_ok st id body st' reply :
  store_ok st -> updateDoc st id body = (st', reply) -> store_ok st'.
Proof.
  intros Hok. unfold updateDoc.
  destruct (props_of body) as [field|]; [|now intros [= <- _]].
  destruct (Doc_findByPk _ _) as [doc|] eqn:Hfind; [|now intros [= <- _]].
  unfold Doc_update. destruct (doc_constraints _ _); [|now intros [= <- _]].
  intros [= <- _]. destruct Hok as [Hd Hc]. split; simpl; [|exact Hc].
  apply Forall_forall. intros r Hin. apply in_map_iff in Hin.
  destruct Hin as (r0 & <- & Hin0).
  rewrite Forall_forall in Hd.
  destruct (Doc.id r0 =? Doc.id doc) eqn:E; simpl.
  - apply Doc_findByPk_In in Hfind. destruct Hfind as [Hin _].
    now apply Hd.
  - now apply Hd.
Qed.

(** ** Dictionaries *)

Section JsObjectFacts.
Context {V : Type}.
Implicit Types (o : JsObject.t V) (k : string) (v : V).

Lemma get_In o k v : JsObject.get o k = Some v -> In (k, v) o.
Proof.
  induction o as [|[k' v'] o IH]; simpl; [discriminate|].
  destruct (String.eqb_spec k' k) as [->|Hne].
  - intros [= ->]. now left.
  - intros H. right. auto.
Qed.

Lemma get_None_keys o k : JsObject.get o k = None -> ~ In k (map fst o).
Proof.
  induction o as [|[k' v'] o IH]; simpl; [tauto|].
  destruct (String.eqb_spec k' k) as [->|Hne]; [discriminate|].
  intros H [E|Hin]; [congruence | now apply IH].
Qed.

Lemma get_set_same o k v : JsObject.get (JsObject.set o k v) k = Some v.
Proof.
  induction o as [|[k' v'] o IH]; simpl.
  - now rewrite String.eqb_refl.
  - destruct (String.eqb_spec k' k) as [->|Hne]; simpl.
    + now rewrite String.eqb_refl.
    + destruct (String.eqb_spec k' k); [contradiction|exact IH].
Qed.

Lemma set_set o k v v' :
  JsObject.set (JsObject.set o k v) k v' = JsObject.set o k v'.
Proof.
  induction o as [|[k0 v0] o IH]; simpl.
  - now rewrite String.eqb_refl.
  - destruct (String.eqb_spec k0 k) as [->|Hne]; simpl.
    + now rewrite String.eqb_refl.
    + destruct (String.eqb_spec k0 k); [contradiction|]. now rewrite IH.
Qed.

(** Writing a property keeps the keys and their order; a new key goes
    last. *)
Lemma keys_set o k v :
  map fst (JsObject.set o k v)
  = match JsObject.get o k with
    | Some _ => map fst o
    | None => map fst o ++ [k]
    end.
Proof.
  induction o as [|[k' v'] o IH]; simpl; [reflexivity|].
  destruct (String.eqb_spec k' k) as [->|Hne]; simpl; [reflexivity|].
  rewrite IH. now destruct (JsObject.get o k).
Qed.

Lemma set_In o k v p :
  NoDup (map fst o) ->
  In p (JsObject.set o k v) -> p = (k, v) \/ (In p o /\ fst p <> k).
Proof.
  induction o as [|[k' v'] o IH]; simpl; intros Hnd.
  - intros [<-|[]]. now left.
  - inversion Hnd as [|? ? Hnotin Hnd']; subst.
    destruct (String.eqb_spec k' k) as [->|Hne]; simpl.
    + intros [<-|Hin]; [now left|]. right. split; [now right|].
      intros E. apply Hnotin. rewrite <- E. now apply in_map.
    + intros [<-|Hin].
      * right. split; [now left|exact Hne].
      * destruct (IH Hnd' Hin) as [->|[Hin' Hk]]; [now left|].
        right. split; [now right|exact Hk].
Qed.

Lemma NoDup_keys_set o k v :
  NoDup (map fst o) -> NoDup (map fst (JsObject.set o k v)).
Proof.
  intros Hnd. rewrite keys_set.
  destruct (JsObject.get o k) eqn:E; [exact Hnd|].
  apply get_None_keys in E.
  clear - Hnd E. induction (map fst o) as [|a l IH]; simpl.
  - constructor; [tauto|constructor].
  - inversion Hnd; subst. constructor.
    + rewrite in_app_iff. simpl. intros [H|[H|[]]]; [tauto|].
      apply E. now left.
    + apply IH; auto. intros H. apply E. now right.
Qed.

(** Enumeration only reorders the properties. *)
Lemma partition_perm (f : string * V -> bool) (l : list (string * V)) :
  Permutation (filter f l ++ filter (fun p => negb (f p)) l) l.
Proof.
  induction l as [|p l IH]; simpl; [constructor|].
  destruct (f p); simpl.
  - now constructor.
  - apply Permutation_sym. eapply perm_trans.
    + apply perm_skip, Permutation_sym, IH.
    + apply Permutation_middle.
Qed.

Lemma own_keys_order_perm o : Permutation (JsObject.own_keys_order o) o.
Proof.
  unfold JsObject.own_keys_order, JsObject.sort_indices.
  eapply perm_trans; [|apply (partition_perm JsObject.is_index)].
  apply Permutation_app_tail, order_by_perm.
Qed.

(** When every key is an array index, enumeration is by ascending
    index. *)
Lemma own_keys_order_ascending o :
  Forall (fun p => JsObject.is_index p = true) o ->
  StronglySorted (fun p q => JsObject.index_of p <= JsObject.index_of q)
                 (JsObject.own_keys_order o).
Proof.
  intros Hall. unfold JsObject.own_keys_order, JsObject.sort_indices.
  rewrite (filter_all _ _ Hall).
  rewrite filter_none, app_nil_r.
  - apply Sorted_StronglySorted.
    + intros a b c. lia.
    + pose proof (order_by_Sorted (@JsObject.index_le V)) as Hs.
      assert (Htot : forall a b : string * V,
                 JsObject.index_le a b = true \/ JsObject.index_le b a = true).
      { intros a b. unfold JsObject.index_le. rewrite !Z.leb_le. lia. }
      specialize (Hs Htot o).
      clear - Hs. induction Hs as [|a l _ IH Hhd]; constructor; auto.
      destruct Hhd as [|b l Hab]; constructor.
      unfold in_order, JsObject.index_le in Hab. now apply Z.leb_le.
  - eapply Forall_impl; [|exact Hall]. simpl. now intros p ->.
Qed.
End JsObjectFacts.

(** ** Grouping by category *)

(** One step of the reduction writes the bucket of the Doc's key: the
    bucket found there, or a new one, with the Doc pushed last. *)
Lemma group_step_eq acc docObj :
  group_step acc docObj
  = JsObject.set acc (doc_key docObj)
      match JsObject.get acc (doc_key docObj) with
      | Some g =>
          {| Group.cat := Group.cat g;
             Group.children := Group.children g ++ [child_of docObj] |}
      | None =>
          {| Group.cat := bucket_category docObj;
             Group.children := [child_of docObj] |}
      end.
Proof.
  unfold group_step. fold (doc_key docObj).
  destruct (JsObject.get acc (doc_key docObj)) as [g|] eqn:E.
  - now rewrite E.
  - rewrite get_set_same. simpl. apply set_set.
Qed.

Lemma members_app seen d k :
  members (seen ++ [d]) k
  = members seen k ++ (if (doc_key d =? k)%string then [child_of d] else []).
Proof.
  unfold members. rewrite filter_app, map_app. simpl.
  now destruct (doc_key d =? k)%string.
Qed.

Lemma members_unseen seen k :
  (forall d, In d seen -> doc_key d <> k) -> members seen k = [].
Proof.
  intros H. unfold members. rewrite filter_none; [reflexivity|].
  apply Forall_forall. intros d Hd. apply String.eqb_neq. auto.
Qed.

Lemma grouped_upto_step seen acc d :
  grouped_upto seen acc -> grouped_upto (seen ++ [d]) (group_step acc d).
Proof.
  intros [Hnd Hfill Hplaced]. rewrite group_step_eq.
  set (k := doc_key d).
  split.
  - now apply NoDup_keys_set.
  - intros k' g' Hin. apply set_In in Hin; [|exact Hnd].
    destruct Hin as [E|[Hin Hne]].
    + injection E as -> ->. rewrite members_app. fold k.
      rewrite String.eqb_refl.
      destruct (JsObject.get acc k) as [g|] eqn:Eg; simpl.
      * apply get_In in Eg. destruct (Hfill _ _ Eg) as (Hc & d0 & Hd0 & Hk & Hcat).
        split; [now rewrite Hc|].
        exists d0. rewrite in_app_iff. auto.
      * split.
        -- rewrite members_unseen; [reflexivity|].
           intros d0 Hd0 E. apply get_None_keys in Eg. apply Eg.
           rewrite <- E. now apply Hplaced.
        -- exists d. rewrite in_app_iff. simpl. auto.
    + simpl in Hne. destruct (Hfill _ _ Hin) as (Hc & d0 & Hd0 & Hk & Hcat).
      split.
      * rewrite members_app. fold k.
        destruct (String.eqb_spec k k'); [congruence|].
        now rewrite app_nil_r.
      * exists d0. rewrite in_app_iff. auto.
  - intros d0 Hin. rewrite keys_set.
    apply in_app_iff in Hin. destruct Hin as [Hin|[<-|[]]].
    + specialize (Hplaced _ Hin).
      destruct (JsObject.get acc k); [exact Hplaced|].
      rewrite in_app_iff. now left.
    + fold k. destruct (JsObject.get acc k) eqn:Eg.
      * apply get_In in Eg. now apply (in_map fst) in Eg.
      * rewrite in_app_iff. right. now left.
Qed.

Lemma grouped_upto_fold docs : forall seen acc,
  grouped_upto seen acc ->
  grouped_upto (seen ++ docs) (fold_left group_step docs acc).
Proof.
  induction docs as [|d docs IH]; simpl; intros seen acc H.
  - now rewrite app_nil_r.
  - replace (seen ++ d :: docs) with ((seen ++ [d]) ++ docs)
      by now rewrite <- app_assoc.
    apply IH. now apply grouped_upto_step.
Qed.

Lemma grouped_spec docs : grouped_upto docs (grouped docs).
Proof.
  apply (grouped_upto_fold docs [] JsObject.empty).
  split; simpl; [constructor | tauto | tauto].
Qed.

Lemma entry_key_is_bucket_key docs k g :
  In (k, g) (grouped docs) -> k = bucket_key g.
Proof.
  intros Hin. destruct (buckets_filled _ _ (grouped_spec docs) _ _ Hin)
    as (_ & d & _ & Hk & Hcat).
  unfold bucket_key. rewrite Hcat. now rewrite <- Hk.
Qed.

Lemma map_ext_In_keys docs (l : list (string * Group.t)) :
  (forall p, In p l -> In p (grouped docs)) ->
  map bucket_key (map snd l) = map fst l.
Proof.
  intros Hsub. rewrite map_map. apply map_ext_in. intros [k g] Hin.
  simpl. symmetry. apply (entry_key_is_bucket_key docs). now apply Hsub.
Qed.

(** X8.  The grouping itself: whatever the order, the reply has one bucket
    per distinct key, every Doc is a child of the bucket of its key, and
    a bucket's children are the Docs of that key in the order they were
    read, under the category of one of them. *)
Lemma getUniqueSlugsGrouped_buckets st :
  exists buckets,
    getUniqueSlugsGrouped st = Json 200 buckets /\
    NoDup (map bucket_key buckets) /\
    (forall d, In d (slug_docs st) ->
               exists g, In g buckets /\ bucket_key g = doc_key d) /\
    Forall (fun g =>
              Group.children g = members (slug_docs st) (bucket_key g) /\
              exists d, In d (slug_docs st) /\ doc_key d = bucket_key g /\
                        Group.cat g = bucket_category d)
           buckets.
Proof.
  eexists. split; [reflexivity|].
  set (docs := slug_docs st).
  pose proof (grouped_spec docs) as [Hnd Hfill Hplaced].
  pose proof (own_keys_order_perm (grouped docs)) as Hperm.
  assert (Hsub : forall p, In p (JsObject.own_keys_order (grouped docs)) ->
                           In p (grouped docs)).
  { intros p. now apply Permutation_in. }
  unfold JsObject.values. split; [|split].
  - rewrite (map_ext_In_keys docs _ Hsub).
    eapply Permutation_NoDup; [|exact Hnd].
    apply Permutation_map, Permutation_sym, Hperm.
  - intros d Hd. specialize (Hplaced d Hd). apply in_map_iff in Hplaced.
    destruct Hplaced as ([k g] & Hk & Hin). simpl in Hk. subst k.
    exists g. split.
    + apply in_map_iff. exists (doc_key d, g). split; [reflexivity|].
      eapply Permutation_in; [apply Permutation_sym, Hperm|exact Hin].
    + symmetry. now apply (entry_key_is_bucket_key docs).
  - apply Forall_forall. intros g Hg. apply in_map_iff in Hg.
    destruct Hg as ([k g'] & Hs & Hin). simpl in Hs. subst g'.
    apply Hsub in Hin.
    pose proof (entry_key_is_bucket_key docs _ _ Hin) as Hk.
    destruct (Hfill _ _ Hin) as (Hc & d & Hd & Hdk & Hcat).
    rewrite <- Hk. split; [exact Hc|]. exists d. auto.
Qed.

Lemma array_index_Number_toString z :
  0 <= z < 2 ^ 32 - 1 -> array_index (Number_toString z) = Some z.
Proof.
  intros [Hlo Hhi]. unfold array_index.
  rewrite numeral_Number_toString, String.eqb_refl.
  destruct (Z.leb_spec 0 z); [|lia].
  destruct (Z.ltb_spec z (2 ^ 32 - 1)); [reflexivity|lia].
Qed.

Lemma slug_docs_category st d c :
  In d (slug_docs st) -> Slim.category d = Some c -> In c (category_rows st).
Proof.
  unfold slug_docs. rewrite order_by_In, in_map_iff.
  intros (row & <- & _). simpl. unfold category_row_of.
  intros H. now apply find_some in H.
Qed.

(** X9.  The order of the reply: when category ids are array indices, as the
    keys issued by the store are, the buckets come in ascending order
    of category id, the default category standing at 0. *)
Lemma getUniqueSlugsGrouped_ascending st :
  Forall (fun c => 0 <= Category.id c < 2 ^ 32 - 1) (category_rows st) ->
  exists buckets,
    getUniqueSlugsGrouped st = Json 200 buckets /\
    StronglySorted (fun a b => key_number a <= key_number b) buckets.
Proof.
  intros Hrange. eexists. split; [reflexivity|].
  set (docs := slug_docs st).
  pose proof (grouped_spec docs) as [Hnd Hfill Hplaced].
  assert (Hidx : forall k g, In (k, g) (grouped docs) ->
                             array_index k = Some (key_number g)).
  { intros k g Hin. destruct (Hfill _ _ Hin) as (_ & d & Hd & Hk & Hcat).
    unfold key_number. rewrite Hcat, <- Hk. unfold doc_key, bucket_category.
    destruct (Slim.category d) as [c|] eqn:Ec; simpl; [|reflexivity].
    apply array_index_Number_toString.
    rewrite Forall_forall in Hrange. apply Hrange.
    now apply (slug_docs_category st d). }
  assert (Hall : Forall (fun p => JsObject.is_index p = true) (grouped docs)).
  { apply Forall_forall. intros [k g] Hin. unfold JsObject.is_index. simpl.
    now rewrite (Hidx _ _ Hin). }
  pose proof (own_keys_order_ascending _ Hall) as Hs.
  pose proof (own_keys_order_perm (grouped docs)) as Hperm.
  unfold JsObject.values.
  assert (Hsub : forall p, In p (JsObject.own_keys_order (grouped docs)) ->
                           JsObject.index_of p = key_number (snd p)).
  { intros [k g] Hin. apply (Permutation_in _ Hperm) in Hin.
    unfold JsObject.index_of. simpl. now rewrite (Hidx _ _ Hin). }
  revert Hsub Hs. generalize (JsObject.own_keys_order (grouped docs)).
  intros l Hsub Hs. induction Hs as [|p l Hs IH Hall']; simpl; constructor.
  - apply IH. intros q Hq. apply Hsub. now right.
  - rewrite Forall_map. rewrite Forall_forall in *. intros q Hq.
    rewrite <- (Hsub p), <- (Hsub q); [now apply Hall'| now right | now left].
Qed.

(** ** Consistency is kept by every writing handler *)

Lemma doomed_mem_In doomed i : doomed_mem doomed i = true <-> In i doomed.
Proof.
  unfold doomed_mem. rewrite existsb_exists. split.
  - intros (j & Hj & E). apply Z.eqb_eq in E. now subst.
  - intros H. exists i. split; [exact H | apply Z.eqb_refl].
Qed.

(** Keeping some of the rows keeps their keys distinct. *)
Lemma kept_keys_distinct (keep : Doc.row -> bool) (rows : list Doc.row) :
  NoDup (map Doc.id rows) -> NoDup (map Doc.id (filter keep rows)).
Proof.
  induction rows as [|r rows IH]; simpl; [trivial|].
  rewrite NoDup_cons_iff. intros [Hfresh Hrest].
  destruct (keep r); simpl; [|now apply IH].
  apply NoDup_cons_iff. split; [|now apply IH].
  intros Hin. apply Hfresh.
  apply in_map_iff in Hin. destruct Hin as (x & E & Hx).
  apply filter_In in Hx. apply in_map_iff. exists x. tauto.
Qed.

Lemma inserted_consistent st values codes st1 newDoc st2 r :
  consistent st ->
  Doc_create st values = Some (st1, newDoc) ->
  create_codes_if_array st1 codes (Doc.id newDoc) = (st2, r) ->
  consistent st2.
Proof. clear included_first.
  intros [Hok Hnd Hown] Hcreate Hloop.
  pose proof (inserted_store_ok _ _ _ _ _ _ _ Hok Hcreate Hloop) as Hok2.
  apply Doc_create_spec in Hcreate.
  destruct Hcreate as (Hrow & _ & Hrows1 & Hcodes1 & _ & _).
  apply create_codes_if_array_spec in Hloop.
  destruct Hloop as (Hrows2 & _ & _ & rows & Hcodes2 & Hnew & _).
  assert (Hid : Doc.id newDoc = next_doc_id st)
    by (rewrite Hrow; apply Doc_build_id).
  split; [exact Hok2| |].
  - rewrite Hrows2, Hrows1, map_app. simpl.
    apply NoDup_app; [exact Hnd|repeat constructor; simpl; tauto|].
    intros i Hi [<-|[]].
    destruct Hok as [Hdocs _]. rewrite Forall_forall in Hdocs.
    apply in_map_iff in Hi. destruct Hi as (d & E & Hd).
    specialize (Hdocs d Hd). simpl in Hdocs. lia.
  - rewrite Hcodes2, Hcodes1, Hrows2, Hrows1, map_app. apply Forall_app. split.
    + eapply Forall_impl; [|exact Hown]. simpl. intros c Hc.
      apply in_or_app. now left.
    + eapply Forall_impl; [|exact Hnew]. simpl. intros c ->.
      apply in_or_app. right. now left.
Qed.

Lemma Doc_destroy_consistent st d :
  consistent st -> consistent (Doc_destroy st d).
Proof.
  intros [[Hdocs Hcodes] Hnd Hown].
  set (doomed := cascade (List.length (doc_rows st)) (doc_rows st) [Doc.id d]).
  split; [split| |]; simpl; fold doomed.
  - apply Forall_forall. intros r Hr. apply filter_In in Hr.
    rewrite Forall_forall in Hdocs. now apply Hdocs.
  - apply Forall_forall. intros c Hc. apply filter_In in Hc.
    rewrite Forall_forall in Hcodes. now apply Hcodes.
  - now apply kept_keys_distinct.
  - apply Forall_forall. intros c Hc. apply filter_In in Hc.
    destruct Hc as [Hc Hkeep].
    rewrite Forall_forall in Hown. specialize (Hown c Hc). simpl in Hown.
    apply in_map_iff in Hown. destruct Hown as (r & E & Hr).
    apply in_map_iff. exists r. split; [exact E|].
    apply filter_In. split; [exact Hr|]. now rewrite E.
Qed.

(** X1.  A store in which keys are unique and issued below the
    counters, and in which every Code row is owned by a Doc row, stays
    so under [createDoc], [createVariant], [updateDoc] and [deleteDoc],
    whatever they are given and whatever they reply, the replies that
    forward an error after a partial write included. *)
Theorem writing_handlers_keep_consistent st :
  consistent st ->
  (forall body st' reply,
      createDoc st body = (st', reply) -> consistent st') /\
  (forall id body st' reply,
      createVariant st id body = (st', reply) -> consistent st') /\
  (forall id body st' reply,
      updateDoc st id body = (st', reply) -> consistent st') /\
  (forall id st' reply,
      deleteDoc st id = (st', reply) -> consistent st').
Proof.
  intros Hc. split; [|split; [|split]].
  - intros body st' reply. unfold createDoc.
    destruct (props_of body) as [field|]; [|now intros [= <- _]].
    destruct (Doc_create _ _) as [[st1 newDoc]|] eqn:Hcreate;
      [|now intros [= <- _]].
    destruct (create_codes_if_array _ _ _) as [st2 r] eqn:Hloop.
    pose proof (inserted_consistent _ _ _ _ _ _ _ Hc Hcreate Hloop).
    destruct r; now intros [= <- _].
  - intros id body st' reply. unfold createVariant.
    destruct (props_of body) as [field|]; [|now intros [= <- _]].
    destruct (Doc_findByPk _ _) as [parentDoc|]; [|now intros [= <- _]].
    destruct (Doc_create _ _) as [[st1 variant]|] eqn:Hcreate;
      [|now intros [= <- _]].
    destruct (create_codes_if_array _ _ _) as [st2 r] eqn:Hloop.
    pose proof (inserted_consistent _ _ _ _ _ _ _ Hc Hcreate Hloop).
    destruct r; now intros [= <- _].
  - intros id body st' reply Hcall.
    pose proof (updateDoc_store_ok _ _ _ _ _ (keys_issued _ Hc) Hcall) as Hok.
    revert Hcall. unfold updateDoc.
    destruct (props_of body) as [field|]; [|now intros [= <- _]].
    destruct (Doc_findByPk _ _) as [doc|]; [|now intros [= <- _]].
    unfold Doc_update. destruct (doc_constraints _ _); [|now intros [= <- _]].
    intros [= <- _].
    assert (Hids : map Doc.id
              (map (fun r => if Doc.id r =? Doc.id doc
                             then Doc_assign doc
                                    [("uiName", field "uiName");
                                     ("uiSubtitle", field "uiSubtitle");
                                     ("docs", field "docs");
                                     ("categoryId", field "categoryId")]
                             else r) (doc_rows st))
            = map Doc.id (doc_rows st)).
    { rewrite map_map. apply map_ext. intros r.
      destruct (Z.eqb_spec (Doc.id r) (Doc.id doc)); simpl; congruence. }
    destruct Hc as [_ Hnd Hown].
    split; [exact Hok| |]; simpl; rewrite Hids; assumption.
  - intros id st' reply. unfold deleteDoc.
    destruct (Doc_findByPk _ _) as [doc|]; intros [= <- _]; [|exact Hc].
    now apply Doc_destroy_consistent.
Qed.

(** ** More on creation *)

Lemma entry_columns_not_object e :
  (forall props, e <> JObj props) -> entry_columns e = (JNull, JNull).
Proof.
  intros H. destruct e; try reflexivity. now destruct (H props).
Qed.

(** X2.  Whatever the entries of an array [codes] look like, a 201 from
    [createDoc] means one Code row per entry, in order, all owned by the
    new Doc; a property the entry lacks is stored as NULL, and an entry
    that is not an object (a number, a string, an array) gives a row
    with NULL language and NULL code. *)
Theorem createDoc_one_row_per_entry st body field entries st' v :
  store_ok st ->
  props_of body = Some field ->
  field "codes" = JArr entries ->
  createDoc st body = (st', Json 201 (Some v)) ->
  map code_columns (Created.codes v) = map entry_columns entries /\
  Forall (fun c => Code.docId c = Doc.id (Created.doc v)) (Created.codes v) /\
  code_rows st' = code_rows st ++ Created.codes v /\
  (forall e, In e entries -> (forall props, e <> JObj props) ->
             In (JNull, JNull) (map code_columns (Created.codes v))).
Proof.
  intros Hok Hb Hcodes Hcall.
  destruct (createDoc_created _ _ _ _ _ Hb Hcall)
    as (st1 & newDoc & Hcreate & Hloop & Hv).
  destruct (inserted_doc _ _ _ _ _ _ Hok Hcreate Hloop)
    as (_ & _ & Hfind & Hmap & _).
  unfold fetch_created in Hv. rewrite Hfind in Hv. injection Hv as ->.
  simpl. specialize (Hmap _ Hcodes).
  pose proof Hcreate as Hspec. apply Doc_create_spec in Hspec.
  destruct Hspec as (Hrow & _ & _ & Hc1 & _ & _).
  pose proof Hloop as Hl. apply create_codes_if_array_spec in Hl.
  destruct Hl as (_ & _ & _ & rows & Hc2 & Hown & _ & _).
  assert (Hof : codes_of st' newDoc = rows).
  { unfold codes_of. rewrite Hc2, Hc1, filter_app.
    rewrite filter_none, filter_all; auto.
    - eapply Forall_impl; [|exact Hown]. intros c Hcq; simpl in Hcq.
      rewrite Hcq. apply Z.eqb_refl.
    - destruct Hok as [_ Hcodes0].
      eapply Forall_impl; [|exact Hcodes0]. intros c Hlt; simpl in Hlt.
      apply Z.eqb_neq. rewrite Hrow, Doc_build_id. lia. }
  split; [exact Hmap|]. split; [|split].
  - rewrite Hof. exact Hown.
  - rewrite Hof, Hc2, Hc1. reflexivity.
  - intros e He Hno. rewrite Hmap, <- (entry_columns_not_object e Hno).
    now apply in_map.
Qed.



Lemma Doc_build_generated_slug st values :
  own_prop values "uniqueSlug" = JUndefined ->
  Doc.uniqueSlug (Doc_build st values)
  = slug_hook st (with_slug (Doc_build st values) JNull).
Proof.
  intros Hnone. unfold Doc_build. rewrite Hnone. simpl. reflexivity.
Qed.

(** X4.  Neither [createDoc] nor [createVariant] hands the payload's
    [uniqueSlug] to the model: the slug of the Doc they return is always
    the one the model generates from the other columns, even when the
    payload names a slug of its own. *)
Theorem created_slug_is_generated st body field :
  store_ok st ->
  props_of body = Some field ->
  (forall st' v,
      createDoc st body = (st', Json 201 (Some v)) ->
      Doc.uniqueSlug (Created.doc v)
      = slug_hook st (with_slug (Created.doc v) JNull)) /\
  (forall id st' v,
      createVariant st id body = (st', Json 201 (Some v)) ->
      Doc.uniqueSlug (Created.doc v)
      = slug_hook st (with_slug (Created.doc v) JNull)).
Proof.
  intros Hok Hb. split.
  - intros st' v Hcall.
    destruct (createDoc_created _ _ _ _ _ Hb Hcall)
      as (st1 & newDoc & Hcreate & Hloop & Hv).
    destruct (inserted_doc _ _ _ _ _ _ Hok Hcreate Hloop)
      as (Hrow & _ & Hfind & _ & _).
    unfold fetch_created in Hv. rewrite Hfind in Hv. injection Hv as ->.
    simpl. rewrite Hrow. now apply Doc_build_generated_slug.
  - intros id st' v Hcall.
    destruct (createVariant_created _ _ _ _ _ _ Hb Hcall)
      as (p & st1 & variant & _ & Hcreate & Hloop & Hv).
    destruct (inserted_doc _ _ _ _ _ _ Hok Hcreate Hloop)
      as (Hrow & _ & Hfind & _ & _).
    unfold fetch_created in Hv. rewrite Hfind in Hv. injection Hv as ->.
    simpl. rewrite Hrow. now apply Doc_build_generated_slug.
Qed.

(** ** Creation followed by a read *)

Lemma find_app_found {A : Type} (f : A -> bool) (l l' : list A) (x : A) :
  find f l = Some x -> find f (l ++ l') = Some x.
Proof.
  induction l as [|y l IH]; simpl; [discriminate|].
  destruct (f y); auto.
Qed.

Lemma insert_sorted_last {A : Type} (le : A -> A -> bool) (y x : A) (s : list A) :
  le y x = true ->
  insert_sorted le y (s ++ [x]) = insert_sorted le y s ++ [x].
Proof.
  intros Hle. induction s as [|z s IH]; simpl.
  - now rewrite Hle.
  - destruct (le y z); [reflexivity|]. now rewrite IH.
Qed.

Lemma order_by_last {A : Type} (le : A -> A -> bool) (l : list A) (x : A) :
  Forall (fun y => le y x = true) l ->
  order_by le (l ++ [x]) = order_by le l ++ [x].
Proof.
  unfold order_by.
  induction 1 as [|y l Hy _ IH]; simpl; [reflexivity|].
  rewrite IH. apply insert_sorted_last. exact Hy.
Qed.

(** What the rows written for a new Doc change in the views of the
    Docs that were there. *)
Lemma inserted_views st values codes st1 newDoc st2 r :
  store_ok st ->
  Doc_create st values = Some (st1, newDoc) ->
  create_codes_if_array st1 codes (Doc.id newDoc) = (st2, r) ->
  doc_rows st2 = doc_rows st ++ [newDoc] /\
  Doc.id newDoc = next_doc_id st /\
  (forall d, Doc.id d < next_doc_id st -> codes_of st2 d = codes_of st d) /\
  (forall d, category_ref_of st2 d = category_ref_of st d) /\
  (forall d, Doc.id d < next_doc_id st ->
     variants_of st2 d
     = variants_of st d
       ++ (if key_eq (Doc.parentId newDoc) (JNum (Doc.id d))
           then [{| Variant.doc := newDoc;
                    Variant.codes := codes_of st2 newDoc |}]
           else [])).
Proof.
  intros Hok Hcreate Hloop.
  apply Doc_create_spec in Hcreate.
  destruct Hcreate as (Hrow & _ & Hd1 & Hc1 & Hcat1 & _).
  apply create_codes_if_array_spec in Hloop.
  destruct Hloop as (Hd2 & Hcat2 & _ & rows & Hc2 & Hown & _).
  assert (Hid : Doc.id newDoc = next_doc_id st)
    by (rewrite Hrow; apply Doc_build_id).
  assert (Hcodes : forall d, Doc.id d < next_doc_id st ->
                             codes_of st2 d = codes_of st d).
  { intros d Hlt. unfold codes_of. rewrite Hc2, Hc1, filter_app.
    rewrite (filter_none _ rows); [apply app_nil_r|].
    eapply Forall_impl; [|exact Hown]. intros c Hc; simpl in Hc.
    apply Z.eqb_neq. lia. }
  split; [congruence|]. split; [exact Hid|]. split; [exact Hcodes|]. split.
  - intros d. unfold category_ref_of, category_row_of.
    now rewrite Hcat2, Hcat1.
  - intros d Hlt. unfold variants_of. rewrite Hd2, Hd1, filter_app, map_app.
    f_equal.
    + apply map_ext_in. intros w Hw. apply filter_In in Hw.
      destruct Hw as [Hw _]. destruct Hok as [Hdocs _].
      rewrite Forall_forall in Hdocs. f_equal. apply Hcodes.
      now apply Hdocs.
    + simpl. now destruct (key_eq _ _).
Qed.

(** X5.  A variant created under a parent shows up where a reader
    expects it: [getDocById] on the parent afterwards answers the same
    Doc, codes and category as before, with the new variant and its own
    codes added last to [uiVariants]; and the variant is not a main Doc,
    so [getDocs] does not list it. *)
Theorem createVariant_listed_under_parent st id body parentDoc st' v :
  store_ok st ->
  Doc_findByPk st (JStr id) = Some parentDoc ->
  createVariant st id body = (st', Json 201 (Some v)) ->
  exists before,
    getDocById st id = Json 200 before /\
    getDocById st' id
    = Json 200
        {| Full.doc := Full.doc before;
           Full.codes := Full.codes before;
           Full.category := Full.category before;
           Full.uiVariants :=
             Full.uiVariants before
             ++ [{| Variant.doc := Created.doc v;
                    Variant.codes := Created.codes v |}] |} /\
    (forall docs, getDocs st' = Json 200 docs ->
                  ~ In (Created.doc v) (map Full.doc docs)).
Proof.
  intros Hok Hparent Hcall.
  destruct (props_of body) as [field|] eqn:Hb.
  2:{ unfold createVariant in Hcall. rewrite Hb in Hcall. discriminate. }
  destruct (createVariant_created _ _ _ _ _ _ Hb Hcall)
    as (p & st1 & variant & _ & Hcreate & Hloop & Hv).
  destruct (inserted_doc _ _ _ _ _ _ Hok Hcreate Hloop)
    as (Hrow & _ & Hfind & _ & _).
  destruct (inserted_views _ _ _ _ _ _ _ Hok Hcreate Hloop)
    as (Hrows & Hid & Hcodes & Hcat & Hvars).
  unfold fetch_created in Hv. rewrite Hfind in Hv. injection Hv as ->.
  pose proof (Doc_build_columns st
    (doc_values (field "uiName") (field "uiSubtitle") (field "docs")
                (JStr id) (field "categoryId"))) as Hcols.
  rewrite <- Hrow in Hcols. simpl in Hcols.
  destruct Hcols as (_ & _ & _ & _ & Hp).
  unfold own_prop in Hp; simpl in Hp.
  pose proof (Doc_findByPk_In _ _ _ Hparent) as [Hin Hk].
  assert (Hlt : Doc.id parentDoc < next_doc_id st).
  { destruct Hok as [Hdocs _]. rewrite Forall_forall in Hdocs.
    now apply Hdocs. }
  assert (Hkey : key_eq (Doc.parentId variant) (JNum (Doc.id parentDoc)) = true).
  { rewrite Hp. unfold key_eq in *. simpl in *.
    destruct (numeral id); [|discriminate]. now rewrite Z.eqb_sym. }
  exists (full st parentDoc). split; [|split].
  - unfold getDocById. now rewrite Hparent.
  - unfold getDocById, Doc_findByPk. rewrite Hrows.
    rewrite (find_app_found _ _ _ _ Hparent). unfold full. simpl.
    rewrite (Hcodes _ Hlt), Hcat, (Hvars _ Hlt), Hkey. reflexivity.
  - intros docs [= <-]. rewrite map_map. simpl. rewrite map_id.
    rewrite order_by_In, filter_In. intros [_ Hmain].
    unfold main_doc in Hmain. simpl in Hmain. now rewrite Hp in Hmain.
Qed.

(** X6.  A Doc created by [createDoc] without a truthy [parentId] is a
    main Doc with the highest id: [getDocs] afterwards lists the Docs it
    listed before, one entry for each and in the same places (the same
    Doc, category and variants, the same codes in some order), followed
    by the new Doc with its category and the codes just written, in
    some order. *)
Theorem createDoc_listed_last st body field st' v :
  store_ok st ->
  props_of body = Some field ->
  truthy (field "parentId") = false ->
  createDoc st body = (st', Json 201 (Some v)) ->
  exists before rest last,
    getDocs st = Json 200 before /\
    getDocs st' = Json 200 (rest ++ [last]) /\
    Forall2 same_entry before rest /\
    Full.doc last = Created.doc v /\
    Permutation (Full.codes last) (Created.codes v) /\
    Full.category last = Created.category v.
Proof.
  intros Hok Hb Hfalsy Hcall.
  destruct (createDoc_created _ _ _ _ _ Hb Hcall)
    as (st1 & newDoc & Hcreate & Hloop & Hv).
  destruct (inserted_doc _ _ _ _ _ _ Hok Hcreate Hloop)
    as (_ & _ & Hfind & _ & _).
  destruct (inserted_views _ _ _ _ _ _ _ Hok Hcreate Hloop)
    as (Hrows & Hid & Hcodes & Hcat & Hvars).
  pose proof (createDoc_stored_parentId _ _ _ _ _ Hok Hb Hcall) as Hpar.
  unfold fetch_created in Hv. rewrite Hfind in Hv. injection Hv as ->.
  simpl in Hpar. unfold js_or in Hpar. rewrite Hfalsy in Hpar.
  set (kept := order_by by_id (filter main_doc (doc_rows st))).
  exists (map (listed st) kept), (map (listed st') kept), (listed st' newDoc).
  split; [reflexivity|]. split; [|split; [|split; [|split]]].
  - unfold getDocs. f_equal. rewrite Hrows, filter_app. simpl.
    unfold main_doc at 2. rewrite Hpar. simpl.
    rewrite order_by_last; [now rewrite map_app|].
    destruct Hok as [Hdocs _]. rewrite Forall_forall in Hdocs.
    apply Forall_forall. intros d Hd. apply filter_In in Hd.
    destruct Hd as [Hd _]. specialize (Hdocs d Hd). simpl in Hdocs.
    unfold by_id. apply Z.leb_le. lia.
  - destruct Hok as [Hdocs _]. rewrite Forall_forall in Hdocs.
    assert (Hkept : forall d, In d kept -> Doc.id d < next_doc_id st).
    { intros d Hd. apply order_by_In, filter_In in Hd.
      destruct Hd as [Hd _]. exact (Hdocs d Hd). }
    clearbody kept. induction kept as [|d kept IH]; simpl; constructor.
    + assert (Hlt : Doc.id d < next_doc_id st) by (apply Hkept; now left).
      unfold same_entry, same_variant. simpl.
      split; [reflexivity|]. split; [|split; [now rewrite Hcat|]].
      * unfold listed_codes. rewrite (Hcodes _ Hlt).
        eapply perm_trans; [apply order_by_perm|].
        apply Permutation_sym, order_by_perm.
      * rewrite (Hvars _ Hlt), Hpar. simpl. rewrite app_nil_r.
        split; intros w Hw; exists w; auto.
    + apply IH. intros e He. apply Hkept. now right.
  - reflexivity.
  - simpl. apply listed_codes_perm.
  - reflexivity.
Qed.

(** ** More on updates *)

Lemma assign_supplied values k old :
  supplied (own_prop values k) -> assign values k old = own_prop values k.
Proof.
  unfold supplied, assign. destruct (own_prop values k); congruence.
Qed.

Lemma assign_absent values k old :
  own_prop values k = JUndefined -> assign values k old = old.
Proof. unfold assign. now intros ->. Qed.

(** X7.  [updateDoc] is a partial update of one Doc.  In the Doc it
    returns with 200, each of uiName, uiSubtitle, docs and categoryId
    holds the payload's value when the payload supplies one (null
    included) and the old value when it does not; every other Doc is
    found as before and no Code row is touched. *)
Theorem updateDoc_partial_update st id body field doc st' sent :
  Doc_findByPk st (JStr id) = Some doc ->
  props_of body = Some field ->
  updateDoc st id body = (st', Json 200 sent) ->
  (supplied (field "uiName") -> Doc.uiName sent = field "uiName") /\
  (field "uiName" = JUndefined -> Doc.uiName sent = Doc.uiName doc) /\
  (supplied (field "uiSubtitle") -> Doc.uiSubtitle sent = field "uiSubtitle") /\
  (field "uiSubtitle" = JUndefined -> Doc.uiSubtitle sent = Doc.uiSubtitle doc) /\
  (supplied (field "docs") -> Doc.docs sent = field "docs") /\
  (field "docs" = JUndefined -> Doc.docs sent = Doc.docs doc) /\
  (supplied (field "categoryId") -> Doc.categoryId sent = field "categoryId") /\
  (field "categoryId" = JUndefined -> Doc.categoryId sent = Doc.categoryId doc) /\
  Doc_findByPk st' (JStr id) = Some sent /\
  (forall key, key_eq (JNum (Doc.id doc)) key = false ->
               Doc_findByPk st' key = Doc_findByPk st key) /\
  code_rows st' = code_rows st /\
  category_rows st' = category_rows st.
Proof.
  intros Hfind Hb. unfold updateDoc. rewrite Hb, Hfind. unfold Doc_update.
  set (values := [("uiName", field "uiName");
                  ("uiSubtitle", field "uiSubtitle");
                  ("docs", field "docs");
                  ("categoryId", field "categoryId")]).
  destruct (doc_constraints st (Doc_assign doc values)); [|discriminate].
  intros [= <- <-]. simpl.
  assert (Hu : own_prop values "uiName" = field "uiName") by reflexivity.
  assert (Hs : own_prop values "uiSubtitle" = field "uiSubtitle") by reflexivity.
  assert (Hd : own_prop values "docs" = field "docs") by reflexivity.
  assert (Hc : own_prop values "categoryId" = field "categoryId") by reflexivity.
  split; [intros H; rewrite <- Hu in H |- *; now apply assign_supplied|].
  split; [intros H; rewrite <- Hu in H; now apply assign_absent|].
  split; [intros H; rewrite <- Hs in H |- *; now apply assign_supplied|].
  split; [intros H; rewrite <- Hs in H; now apply assign_absent|].
  split; [intros H; rewrite <- Hd in H |- *; now apply assign_supplied|].
  split; [intros H; rewrite <- Hd in H; now apply assign_absent|].
  split; [intros H; rewrite <- Hc in H |- *; now apply assign_supplied|].
  split; [intros H; rewrite <- Hc in H; now apply assign_absent|].
  split; [|split; [|split; reflexivity]].
  - unfold Doc_findByPk in *. simpl. rewrite find_map_same.
    + rewrite Hfind. simpl. now rewrite Z.eqb_refl.
    + intros r. destruct (Z.eqb_spec (Doc.id r) (Doc.id doc)) as [E|E];
        [simpl; now rewrite E | reflexivity].
  - intros key Hkey. unfold Doc_findByPk. simpl.
    induction (doc_rows st) as [|r rows IH]; simpl; [reflexivity|].
    destruct (Z.eqb_spec (Doc.id r) (Doc.id doc)) as [E|E]; simpl.
    + rewrite E, Hkey. exact IH.
    + destruct (key_eq (JNum (Doc.id r)) key); [reflexivity|exact IH].
Qed.

(** ** No Doc is lost or repeated by the grouping *)

Lemma children_set (acc : JsObject.t Group.t) k g' extra :
  match JsObject.get acc k with
  | Some g => Group.children g' = Group.children g ++ extra
  | None => Group.children g' = extra
  end ->
  Permutation
    (flat_map (fun p => Group.children (snd p)) (JsObject.set acc k g'))
    (flat_map (fun p => Group.children (snd p)) acc ++ extra).
Proof.
  induction acc as [|[k0 g0] acc IH]; simpl.
  - intros ->. now rewrite app_nil_r.
  - destruct (String.eqb_spec k0 k) as [->|Hne]; simpl.
    + intros ->. rewrite <- !app_assoc. apply Permutation_app_head.
      apply Permutation_app_comm.
    + intros H. rewrite <- app_assoc. apply Permutation_app_head. auto.
Qed.

Lemma children_group_step acc d :
  Permutation
    (flat_map (fun p => Group.children (snd p)) (group_step acc d))
    (flat_map (fun p => Group.children (snd p)) acc ++ [child_of d]).
Proof.
  rewrite group_step_eq. apply children_set.
  now destruct (JsObject.get acc (doc_key d)).
Qed.

Lemma children_fold docs : forall acc,
  Permutation
    (flat_map (fun p => Group.children (snd p)) (fold_left group_step docs acc))
    (flat_map (fun p => Group.children (snd p)) acc ++ map child_of docs).
Proof.
  induction docs as [|d docs IH]; simpl; intros acc.
  - now rewrite app_nil_r.
  - eapply perm_trans; [apply IH|].
    eapply perm_trans; [apply Permutation_app_tail, children_group_step|].
    now rewrite <- app_assoc.
Qed.

(** X10.  Taken together, the children of the buckets are the main Docs
    of the store, each exactly once, as [{ id, uiName, uniqueSlug,
    categoryId }]: the grouping neither drops nor repeats a Doc. *)
Theorem getUniqueSlugsGrouped_children st :
  exists buckets,
    getUniqueSlugsGrouped st = Json 200 buckets /\
    Permutation
      (flat_map Group.children buckets)
      (map (fun d => {| Group.child_id := Doc.id d;
                        Group.uiName := Doc.uiName d;
                        Group.uniqueSlug := Doc.uniqueSlug d;
                        Group.categoryId := Doc.categoryId d |})
           (filter main_doc (doc_rows st))).
Proof.
  eexists. split; [reflexivity|].
  unfold JsObject.values. rewrite flat_map_concat_map, map_map.
  rewrite <- flat_map_concat_map.
  eapply perm_trans.
  { apply Permutation_flat_map, own_keys_order_perm. }
  eapply perm_trans; [apply (children_fold (slug_docs st) JsObject.empty)|].
  simpl. unfold slug_docs.
  eapply perm_trans; [apply Permutation_map, order_by_perm|].
  rewrite map_map. apply Permutation_refl.
Qed.

(** ** Lookup by slug *)

Lemma find_by_unique_id (rows : list Doc.row) (d : Doc.row) :
  NoDup (map Doc.id rows) ->
  In d rows ->
  find (fun r => key_eq (JNum (Doc.id r)) (JNum (Doc.id d))) rows = Some d.
Proof.
  induction rows as [|r rows IH]; simpl; intros Hnd Hin; [contradiction|].
  inversion Hnd as [|? ? Hnotin Hnd']; subst.
  rewrite key_eq_num. destruct Hin as [->|Hin].
  - now rewrite Z.eqb_refl.
  - destruct (Z.eqb_spec (Doc.id r) (Doc.id d)) as [E|E]; [|auto].
    exfalso. apply Hnotin. rewrite E. now apply in_map.
Qed.

(** X11.  [getDocByUniqueSlug] and [getDocById] are two keys to the same
    answer: when the first answers 200, the Doc it returns has the
    requested slug, and [getDocById] on that Doc's id answers 200 with
    the same body; when it answers 404, no Doc has that slug. *)
Theorem getDocByUniqueSlug_agrees_with_getDocById st uniqueSlug :
  consistent st ->
  (forall v,
      getDocByUniqueSlug st uniqueSlug = Json 200 v ->
      Doc.uniqueSlug (Full.doc v) = JStr uniqueSlug /\
      getDocById st (Number_toString (Doc.id (Full.doc v))) = Json 200 v) /\
  (forall status message,
      getDocByUniqueSlug st uniqueSlug = Message status message ->
      status = 404 /\ message = "Doc not found" /\
      forall d, In d (doc_rows st) -> Doc.uniqueSlug d <> JStr uniqueSlug).
Proof.
  intros [_ Hnd _]. unfold getDocByUniqueSlug, Doc_findOne_uniqueSlug.
  destruct (find _ _) as [doc|] eqn:E; split; try discriminate.
  - intros v [= <-]. simpl. apply find_some in E. destruct E as [Hin Hs].
    apply text_is_eq in Hs. split; [exact Hs|].
    unfold getDocById. rewrite Doc_findByPk_param. unfold Doc_findByPk.
    now rewrite find_by_unique_id.
  - intros status message [= <- <-]. repeat split.
    intros d Hd Hs. pose proof (find_none _ _ E d Hd) as Hno.
    simpl in Hno. apply text_is_eq in Hs. congruence.
Qed.

(** X12.  A Doc just created can be fetched by the slug it was given:
    when no earlier Doc has that slug, [getDocByUniqueSlug] answers 200
    with the created Doc and the codes written with it. *)
Theorem createDoc_then_getDocByUniqueSlug st body field st' v uniqueSlug :
  store_ok st ->
  props_of body = Some field ->
  createDoc st body = (st', Json 201 (Some v)) ->
  Doc.uniqueSlug (Created.doc v) = JStr uniqueSlug ->
  (forall d, In d (doc_rows st) -> Doc.uniqueSlug d <> JStr uniqueSlug) ->
  exists found,
    getDocByUniqueSlug st' uniqueSlug = Json 200 found /\
    Full.doc found = Created.doc v /\
    Full.codes found = Created.codes v /\
    Full.category found = Created.category v.
Proof.
  intros Hok Hb Hcall Hslug Hfresh.
  destruct (createDoc_created _ _ _ _ _ Hb Hcall)
    as (st1 & newDoc & Hcreate & Hloop & Hv).
  destruct (inserted_doc _ _ _ _ _ _ Hok Hcreate Hloop)
    as (_ & Hrows & Hfind & _ & _).
  unfold fetch_created in Hv. rewrite Hfind in Hv. injection Hv as ->.
  simpl in Hslug. exists (full st' newDoc).
  split; [|repeat split].
  unfold getDocByUniqueSlug, Doc_findOne_uniqueSlug. rewrite Hrows.
  rewrite find_app_fresh; [reflexivity| |now apply text_is_eq].
  apply Forall_forall. intros d Hd.
  destruct (text_is (Doc.uniqueSlug d) uniqueSlug) eqn:E; [|reflexivity].
  apply text_is_eq in E. now destruct (Hfresh d Hd).
Qed.

(** ** Deletion *)

Lemma cascade_grows n rows : forall doomed i,
  In i doomed -> In i (cascade n rows doomed).
Proof.
  induction n as [|n IH]; simpl; intros doomed i Hi; [exact Hi|].
  apply IH, in_or_app. now left.
Qed.

Lemma newly_doomed_In rows doomed i :
  In i (newly_doomed rows doomed) <->
  exists d, In d rows /\ Doc.id d = i /\ ~ In i doomed /\
            exists p, In p doomed /\ key_eq (Doc.parentId d) (JNum p) = true.
Proof.
  unfold newly_doomed. rewrite in_map_iff. split.
  - intros (d & <- & Hd). apply filter_In in Hd. destruct Hd as [Hd Hf].
    apply andb_true_iff in Hf. destruct Hf as [Hdesc Hnew].
    exists d. repeat split; auto.
    + intros Hin. apply doomed_mem_In in Hin. rewrite Hin in Hnew. discriminate.
    + unfold descends in Hdesc. apply existsb_exists in Hdesc.
      destruct Hdesc as (p & Hp & Hk). eauto.
  - intros (d & Hd & <- & Hnew & p & Hp & Hk). exists d. split; [reflexivity|].
    apply filter_In. split; [exact Hd|]. apply andb_true_iff. split.
    + unfold descends. apply existsb_exists. eauto.
    + destruct (doomed_mem doomed (Doc.id d)) eqn:E; [|reflexivity].
      apply doomed_mem_In in E. contradiction.
Qed.

Lemma cascade_sound n rows root : forall doomed,
  (forall i, In i doomed -> descendant rows root i) ->
  forall i, In i (cascade n rows doomed) -> descendant rows root i.
Proof.
  induction n as [|n IH]; simpl; intros doomed Hall i Hi; [auto|].
  apply (IH (doomed ++ newly_doomed rows doomed)); [|exact Hi].
  intros j Hj. apply in_app_or in Hj. destruct Hj as [Hj|Hj]; [auto|].
  apply newly_doomed_In in Hj.
  destruct Hj as (d & Hd & <- & _ & p & Hp & Hk).
  eapply descendant_variant; eauto.
Qed.

Lemma cascade_stable n rows doomed :
  newly_doomed rows doomed = [] -> cascade n rows doomed = doomed.
Proof.
  intros Hnone. induction n as [|n IH]; simpl; [reflexivity|].
  now rewrite Hnone, app_nil_r.
Qed.

(** One round per row is enough: the marking has stopped growing. *)
Lemma cascade_closed rows :
  NoDup (map Doc.id rows) ->
  forall n doomed,
    NoDup doomed ->
    incl doomed (map Doc.id rows) ->
    (List.length rows < n + List.length doomed)%nat ->
    newly_doomed rows (cascade n rows doomed) = [].
Proof.
  intros Hrows. induction n as [|n IH]; intros doomed Hnd Hincl Hlen.
  - exfalso. pose proof (NoDup_incl_length Hnd Hincl) as Hle.
    rewrite length_map in Hle. simpl in Hlen. lia.
  - simpl. destruct (newly_doomed rows doomed) as [|j new] eqn:Hnew.
    + rewrite app_nil_r, cascade_stable; assumption.
    + rewrite <- Hnew. apply IH.
      * apply NoDup_app; [exact Hnd| |].
        -- unfold newly_doomed. now apply kept_keys_distinct.
        -- intros i Hi Hi'. apply newly_doomed_In in Hi'.
           destruct Hi' as (_ & _ & _ & Hno & _). contradiction.
      * intros i Hi. apply in_app_or in Hi. destruct Hi as [Hi|Hi]; [auto|].
        apply newly_doomed_In in Hi. destruct Hi as (d & Hd & <- & _).
        now apply in_map.
      * rewrite length_app, Hnew. simpl. lia.
Qed.

Lemma cascade_complete rows root doomed :
  In root doomed ->
  newly_doomed rows doomed = [] ->
  forall i, descendant rows root i -> In i doomed.
Proof.
  intros Hroot Hclosed i Hdesc.
  induction Hdesc as [|d p Hd Hk _ IH]; [exact Hroot|].
  destruct (in_dec Z.eq_dec (Doc.id d) doomed) as [Hin|Hout]; [exact Hin|].
  exfalso.
  assert (Hnew : In (Doc.id d) (newly_doomed rows doomed)).
  { apply newly_doomed_In. exists d. repeat split; eauto. }
  now rewrite Hclosed in Hnew.
Qed.

(** The rows a deletion marks are the Doc and what it has under it. *)
Lemma doomed_spec st doc :
  consistent st ->
  In doc (doc_rows st) ->
  forall i,
    In i (cascade (List.length (doc_rows st)) (doc_rows st) [Doc.id doc]) <->
    descendant (doc_rows st) (Doc.id doc) i.
Proof.
  clear slug_hook doc_constraints code_constraints nulls_first included_first.
  intros [_ Hnd _] Hin i. split.
  - apply cascade_sound. intros j [<-|[]]. constructor.
  - apply cascade_complete.
    + apply cascade_grows. now left.
    + apply cascade_closed; auto.
      * repeat constructor. simpl. tauto.
      * intros j [<-|[]]. now apply in_map.
      * simpl. lia.
Qed.

Lemma find_filter_keep {A : Type} (f p : A -> bool) (l : list A) (x : A) :
  find f l = Some x -> p x = true -> find f (filter p l) = Some x.
Proof.
  induction l as [|y l IH]; simpl; [discriminate|].
  destruct (f y) eqn:Ef.
  - intros [= ->] Hp. rewrite Hp. simpl. now rewrite Ef.
  - intros Hx Hp. destruct (p y); simpl; [rewrite Ef|]; auto.
Qed.

Lemma filter_filter_implied {A : Type} (f g : A -> bool) (l : list A) :
  (forall x, In x l -> f x = true -> g x = true) ->
  filter f (filter g l) = filter f l.
Proof.
  induction l as [|x l IH]; simpl; intros H; [reflexivity|].
  destruct (g x) eqn:Eg; simpl.
  - rewrite IH; auto.
  - destruct (f x) eqn:Ef.
    + rewrite (H x (or_introl eq_refl) Ef) in Eg. discriminate.
    + apply IH. auto.
Qed.

Lemma Doc_destroy_rows st doc r :
  In r (doc_rows (Doc_destroy st doc)) <->
  In r (doc_rows st) /\
  ~ In (Doc.id r)
       (cascade (List.length (doc_rows st)) (doc_rows st) [Doc.id doc]).
Proof.
  clear slug_hook doc_constraints code_constraints nulls_first included_first.
  simpl. rewrite filter_In, negb_true_iff, <- doomed_mem_In.
  destruct (doomed_mem _ _); intuition congruence.
Qed.

Lemma Doc_destroy_codes st doc c :
  In c (code_rows (Doc_destroy st doc)) <->
  In c (code_rows st) /\
  ~ In (Code.docId c)
       (cascade (List.length (doc_rows st)) (doc_rows st) [Doc.id doc]).
Proof.
  clear slug_hook doc_constraints code_constraints nulls_first included_first.
  simpl. rewrite filter_In, negb_true_iff, <- doomed_mem_In.
  destruct (doomed_mem _ _); intuition congruence.
Qed.

Lemma codes_of_survivor st doc r :
  In r (doc_rows (Doc_destroy st doc)) ->
  codes_of (Doc_destroy st doc) r = codes_of st r.
Proof.
  clear slug_hook doc_constraints code_constraints nulls_first included_first.
  intros Hr. apply Doc_destroy_rows in Hr. destruct Hr as [_ Hkeep].
  unfold codes_of. simpl. apply filter_filter_implied.
  intros c _ Hc. apply Z.eqb_eq in Hc. rewrite Hc.
  destruct (doomed_mem _ _) eqn:E; [|reflexivity].
  apply doomed_mem_In in E. contradiction.
Qed.

Lemma variants_marked rows root d :
  In d rows ->
  key_eq (Doc.parentId d) (JNum root) = true ->
  In (Doc.id d) (cascade (List.length rows) rows [root]).
Proof.
  intros Hd Hk. destruct (List.length rows) as [|n] eqn:El.
  - apply length_zero_iff_nil in El. subst. contradiction.
  - change (cascade (S n) rows [root])
      with (cascade n rows ([root] ++ newly_doomed rows [root])).
    apply cascade_grows.
    destruct (in_dec Z.eq_dec (Doc.id d) [root]) as [Hi|Ho].
    + apply in_or_app. now left.
    + apply in_or_app. right. apply newly_doomed_In.
      exists d. repeat split; auto. exists root. split; [now left|exact Hk].
Qed.

(** X13.  Deleting an existing Doc answers 200 with "Doc deleted
    successfully"; afterwards the Doc is gone for every reader:
    [getDocById] on the same id answers 404, a second [deleteDoc]
    answers 404 and changes nothing, no Code row of the Doc is left,
    and no remaining Doc is a variant of it. *)
Theorem deleteDoc_then_not_found st id doc :
  Doc_findByPk st (JStr id) = Some doc ->
  exists st',
    deleteDoc st id = (st', Message 200 "Doc deleted successfully") /\
    getDocById st' id = Message 404 "Doc not found" /\
    deleteDoc st' id = (st', Message 404 "Doc not found") /\
    Forall (fun c => Code.docId c <> Doc.id doc) (code_rows st') /\
    Forall (fun d => Doc.id d <> Doc.id doc /\
                     key_eq (Doc.parentId d) (JNum (Doc.id doc)) = false)
           (doc_rows st').
Proof.
  clear slug_hook doc_constraints code_constraints nulls_first included_first.
  intros Hfind. exists (Doc_destroy st doc).
  pose proof (Doc_findByPk_In _ _ _ Hfind) as [Hin Hk].
  set (doomed := cascade (List.length (doc_rows st)) (doc_rows st) [Doc.id doc]).
  assert (Hroot : In (Doc.id doc) doomed).
  { apply cascade_grows. now left. }
  assert (Hgone : Doc_findByPk (Doc_destroy st doc) (JStr id) = None).
  { unfold Doc_findByPk.
    destruct (find _ _) as [r|] eqn:E; [|reflexivity]. exfalso.
    apply find_some in E. destruct E as [Hr Hkr].
    apply Doc_destroy_rows in Hr. destruct Hr as [_ Hkeep]. apply Hkeep.
    fold doomed. unfold key_eq in Hk, Hkr. simpl in Hk, Hkr.
    destruct (numeral id) as [y|]; [|discriminate].
    apply Z.eqb_eq in Hk, Hkr. congruence. }
  split; [|split; [|split; [|split]]].
  - unfold deleteDoc. now rewrite Hfind.
  - unfold getDocById. now rewrite Hgone.
  - unfold deleteDoc. now rewrite Hgone.
  - apply Forall_forall. intros c Hc E. apply Doc_destroy_codes in Hc.
    destruct Hc as [_ Hkeep]. apply Hkeep. now rewrite E.
  - apply Forall_forall. intros d Hd. apply Doc_destroy_rows in Hd.
    destruct Hd as [Hd Hkeep]. fold doomed in Hkeep. split.
    + intros E. apply Hkeep. now rewrite E.
    + destruct (key_eq (Doc.parentId d) (JNum (Doc.id doc))) eqn:Ek;
        [|reflexivity].
      exfalso. apply Hkeep. unfold doomed.
      now apply variants_marked.
Qed.

(** X14.  In a consistent store the deletion removes exactly the Doc
    and what it has under it: a Doc row remains if and only if it is
    neither the deleted Doc, nor one of its variants, nor a variant of
    one removed; a Code row remains if and only if its owner does; and
    no remaining Doc points to a removed parent. *)
Theorem deleteDoc_removes_descendants st id doc st' reply :
  consistent st ->
  Doc_findByPk st (JStr id) = Some doc ->
  deleteDoc st id = (st', reply) ->
  (forall r, In r (doc_rows st') <->
             In r (doc_rows st) /\
             ~ descendant (doc_rows st) (Doc.id doc) (Doc.id r)) /\
  (forall c, In c (code_rows st') <->
             In c (code_rows st) /\
             ~ descendant (doc_rows st) (Doc.id doc) (Code.docId c)) /\
  (forall r p, In r (doc_rows st') ->
               descendant (doc_rows st) (Doc.id doc) p ->
               key_eq (Doc.parentId r) (JNum p) = false).
Proof.
  clear slug_hook doc_constraints code_constraints nulls_first included_first.
  intros Hc Hfind. unfold deleteDoc. rewrite Hfind. intros [= <- _].
  pose proof (Doc_findByPk_In _ _ _ Hfind) as [Hin _].
  pose proof (doomed_spec st doc Hc Hin) as Hspec.
  split; [|split].
  - intros r. rewrite Doc_destroy_rows, Hspec. reflexivity.
  - intros c. rewrite Doc_destroy_codes, Hspec. reflexivity.
  - intros r p Hr Hp.
    destruct (key_eq (Doc.parentId r) (JNum p)) eqn:Ek; [|reflexivity].
    exfalso. apply Doc_destroy_rows in Hr. destruct Hr as [Hr Hkeep].
    apply Hkeep, Hspec. eapply descendant_variant; eauto.
Qed.

Lemma variants_of_member st d w :
  In w (variants_of st d) <->
  In (Variant.doc w) (doc_rows st) /\
  key_eq (Doc.parentId (Variant.doc w)) (JNum (Doc.id d)) = true /\
  Variant.codes w = codes_of st (Variant.doc w).
Proof.
  clear slug_hook doc_constraints code_constraints nulls_first included_first.
  unfold variants_of. rewrite in_map_iff. split.
  - intros (x & <- & Hin). apply filter_In in Hin. simpl.
    destruct Hin as [Hin Hk]. repeat split; assumption.
  - intros (Hin & Hk & Hc). exists (Variant.doc w). split.
    + destruct w as [x cs]; simpl in *. now subst.
    + apply filter_In. split; assumption.
Qed.

(** X15.  Deletion leaves the other Docs readable as they were: a Doc
    that [getDocById] found before and that is still in the store is
    found again under the same key, with the same row, codes and
    category, and with those of its variants that are still there. *)
Theorem deleteDoc_keeps_other_docs st id st' reply key v :
  deleteDoc st id = (st', reply) ->
  getDocById st key = Json 200 v ->
  In (Full.doc v) (doc_rows st') ->
  exists v',
    getDocById st' key = Json 200 v' /\
    Full.doc v' = Full.doc v /\
    Full.codes v' = Full.codes v /\
    Full.category v' = Full.category v /\
    (forall w, In w (Full.uiVariants v') <->
               In w (Full.uiVariants v) /\ In (Variant.doc w) (doc_rows st')).
Proof.
  clear slug_hook doc_constraints code_constraints nulls_first included_first.
  unfold deleteDoc. destruct (Doc_findByPk st (JStr id)) as [doc|].
  2:{ intros [= <- _] Hget Hin. exists v. split; [exact Hget|].
      split; [reflexivity|]. split; [reflexivity|]. split; [reflexivity|].
      intros w. split; [|tauto]. intros Hw. split; [exact Hw|].
      revert Hget Hw. unfold getDocById.
      destruct (Doc_findByPk st (JStr key)) as [d|]; [|discriminate].
      intros [= <-] Hw. simpl in Hw. now apply variants_of_member in Hw. }
  intros [= <- _]. unfold getDocById.
  destruct (Doc_findByPk st (JStr key)) as [d|] eqn:Hfind; [|discriminate].
  intros [= <-]. simpl. intros Hsurv.
  exists (full (Doc_destroy st doc) d).
  assert (Hfind' : Doc_findByPk (Doc_destroy st doc) (JStr key) = Some d).
  { unfold Doc_findByPk in *. simpl. apply find_filter_keep; [exact Hfind|].
    simpl in Hsurv. apply filter_In in Hsurv. tauto. }
  rewrite Hfind'. split; [reflexivity|]. split; [reflexivity|].
  split; [now apply codes_of_survivor|]. split; [reflexivity|].
  intros w. simpl. rewrite !variants_of_member. split.
  - intros (Hw & Hk & Hcodes). rewrite (codes_of_survivor _ _ _ Hw) in Hcodes.
    pose proof Hw as Hw'. apply Doc_destroy_rows in Hw'. tauto.
  - intros ((Hw & Hk & Hcodes) & Hw').
    rewrite (codes_of_survivor _ _ _ Hw'). tauto.
Qed.
(** ** The list and the detail agree *)

(** X19.  In a store with unique Doc keys, what [getDocs] lists is what
    [getDocById] answers: for every entry of the list, [getDocById] on
    the entry's id answers 200 with the same Doc, category and variants
    and the same codes in some order, and every variant shown inside an
    entry can be fetched by its own id, with the Doc the entry shows
    for it and the same codes in some order. *)
Theorem getDocs_agrees_with_getDocById st docs :
  consistent st ->
  getDocs st = Json 200 docs ->
  Forall (fun v =>
            (exists detail,
               getDocById st (Number_toString (Doc.id (Full.doc v)))
               = Json 200 detail /\
               same_entry v detail) /\
            Forall (fun w =>
                      exists detail,
                        getDocById st (Number_toString (Doc.id (Variant.doc w)))
                        = Json 200 detail /\
                        Full.doc detail = Variant.doc w /\
                        Permutation (Full.codes detail) (Variant.codes w))
                   (Full.uiVariants v))
         docs.
Proof.
  clear slug_hook doc_constraints code_constraints nulls_first.
  intros [_ Hnd _] [= <-].
  assert (Hdetail : forall d, In d (doc_rows st) ->
            getDocById st (Number_toString (Doc.id d)) = Json 200 (full st d)).
  { intros d Hd. unfold getDocById.
    rewrite Doc_findByPk_param. unfold Doc_findByPk.
    now rewrite find_by_unique_id. }
  apply Forall_forall. intros v Hv. apply in_map_iff in Hv.
  destruct Hv as (d & <- & Hd). apply order_by_In, filter_In in Hd.
  destruct Hd as [Hd _]. simpl. split.
  - exists (full st d). split; [now apply Hdetail|].
    apply listed_same_entry.
  - apply Forall_forall. intros w Hw. apply variants_of_member in Hw.
    destruct Hw as (Hw & _ & Hcodes).
    exists (full st (Variant.doc w)). split; [now apply Hdetail|].
    split; [reflexivity|]. simpl. now rewrite Hcodes.
Qed.

End Catalog.

Local Open Scope list_scope.

(** ** The controller on sample data *)

Lemma store_ok_empty : store_ok empty_store.
Proof. split; constructor. Qed.

Lemma store_ok_two_categories : store_ok two_categories.
Proof. split; simpl; repeat constructor. Qed.

Example Number_toString_12 : Number_toString 12 = "12".
Proof. reflexivity. Qed.

Example array_index_canonical :
  array_index "7" = Some 7 /\ array_index "07" = None /\
  array_index "-1" = None /\ array_index "4294967295" = None /\
  array_index "4294967294" = Some 4294967294.
Proof. repeat split; reflexivity. Qed.

Example values_enumerates_indices_first :
  JsObject.values
    (JsObject.set (JsObject.set (JsObject.set JsObject.empty "b" 1) "2" 2) "1" 3)
  = [3; 2; 1].
Proof. reflexivity. Qed.

Example getDocById_missing :
  getDocById two_categories "7" = Message 404 "Doc not found".
Proof. reflexivity. Qed.

Example getDocs_ids :
  exists docs, getDocs as_stored two_categories = Json 200 docs /\
               map (fun v => Doc.id (Full.doc v)) docs = [1; 2; 3].
Proof. eexists. split; reflexivity. Qed.

(** The list and the detail may give the codes of a Doc in different
    orders. *)
Example getDocs_codes_newest_first :
  exists docs detail,
    getDocs newest_first with_snippets = Json 200 docs /\
    map (fun v => map Code.id (Full.codes v)) docs = [[2; 1]; [3]; []] /\
    getDocById with_snippets "1" = Json 200 detail /\
    map Code.id (Full.codes detail) = [1; 2].
Proof. do 2 eexists. repeat split; reflexivity. Qed.

(** Every main Doc is listed, with its tailwind rows only. *)
Example getUniqueSlugsWithCode_all :
  exists docs,
    getUniqueSlugsWithCode false newest_first with_snippets None = Json 200 docs /\
    map (fun e => (Slim.id (Coded.doc e), map Snippet.id (Coded.codes e))) docs
    = [(1, [1]); (2, []); (3, [])].
Proof. eexists. split; reflexivity. Qed.

Example getUniqueSlugsWithCode_one_category :
  exists docs,
    getUniqueSlugsWithCode false newest_first with_snippets (Some "2") = Json 200 docs /\
    map (fun e => (Slim.id (Coded.doc e), map Snippet.id (Coded.codes e))) docs
    = [(2, [])].
Proof. eexists. split; reflexivity. Qed.

(** C1 (failing input).  On three main Docs over two categories, read in
    ascending order of category name, the reply lists the buckets by
    ascending numeric key ("0", 1, 2), which is not the order in which the
    categories first occur in the sorted input, wherever NULL sorts. *)
Theorem getUniqueSlugsGrouped_not_first_occurrence_order :
  getUniqueSlugsGrouped false two_categories = Json 200 two_categories_buckets /\
  getUniqueSlugsGrouped true two_categories = Json 200 two_categories_buckets /\
  map bucket_key two_categories_buckets = ["0"; "1"; "2"] /\
  map Slim.id (slug_docs false two_categories) = [2; 1; 3] /\
  first_occurrences [] (map doc_key (slug_docs false two_categories))
  = ["2"; "1"; "0"] /\
  map Slim.id (slug_docs true two_categories) = [3; 2; 1] /\
  first_occurrences [] (map doc_key (slug_docs true two_categories))
  = ["0"; "2"; "1"] /\
  map bucket_key two_categories_buckets
  <> first_occurrences [] (map doc_key (slug_docs false two_categories)) /\
  map bucket_key two_categories_buckets
  <> first_occurrences [] (map doc_key (slug_docs true two_categories)).
Proof.
  repeat split; try (vm_compute; reflexivity); vm_compute; discriminate.
Qed.

(** C2 (failing input).  The routes file asks the controller for
    [getUniqueSlugs], which it does not export, so the routes module
    cannot load; and in the table as written GET /unique-slugs is taken
    by the earlier route "/:id", bound to [getDocById].  No route is
    bound to [getUniqueSlugsGrouped]. *)
Theorem unique_slugs_route_not_served :
  imported "getUniqueSlugs" = None /\
  imported "getUniqueSlugsGrouped" = Some H_getUniqueSlugsGrouped /\
  router = None /\
  dispatch routes GET "/unique-slugs"
  = Some ({| route_method := GET; route_path := [Param "id"];
             route_handler := Some H_getDocById |},
          [("id", "unique-slugs")]) /\
  Forall (fun r => route_handler r <> Some H_getUniqueSlugsGrouped) routes.
Proof.
  repeat split; try reflexivity.
  repeat constructor; simpl; discriminate.
Qed.

(** ** Instances of the conditional theorems *)

(** Runs a handler on closed inputs and offers the store and the Doc of
    its 201 reply as the witnesses of the goal. *)
Ltac offer_created call :=
  let r := eval vm_compute in call in
  match r with
  | (?s, Json _ (Some ?v)) => exists s, v
  end.

Lemma createDoc_then_getDocById_witness :
  exists st' v,
    createDoc name_as_slug accept_doc accept_code empty_store button_payload
    = (st', Json 201 (Some v)) /\
    exists d,
      getDocById st' (Number_toString (Doc.id (Created.doc v))) = Json 200 d /\
      Doc.id (Full.doc d) = Doc.id (Created.doc v) /\
      Doc.uiName (Full.doc d) = JStr "Button" /\
      Doc.uiSubtitle (Full.doc d) = JStr "Primary Button" /\
      Doc.docs (Full.doc d) = JStr "# Button Documentation" /\
      Doc.categoryId (Full.doc d) = JNum 1 /\
      map code_columns (Full.codes d) = button_codes.
Proof.
  offer_created (createDoc name_as_slug accept_doc accept_code empty_store
                           button_payload).
  split; [reflexivity|].
  apply (createDoc_then_getDocById name_as_slug accept_doc accept_code
           empty_store button_payload button_fields button_codes).
  - exact store_ok_empty.
  - reflexivity.
  - discriminate.
  - discriminate.
  - discriminate.
  - discriminate.
  - reflexivity.
  - repeat constructor; discriminate.
  - reflexivity.
Defined.

Lemma createVariant_forces_parentId_witness :
  exists st' v,
    createVariant name_as_slug accept_doc accept_code two_categories "2"
                  stray_payload = (st', Json 201 (Some v)) /\
    Doc.parentId (Created.doc v) = JStr "2" /\
    key_eq (Doc.parentId (Created.doc v)) (JNum 2) = true /\
    In (Created.doc v) (doc_rows st').
Proof.
  offer_created (createVariant name_as_slug accept_doc accept_code
                               two_categories "2" stray_payload).
  split; [reflexivity|].
  apply (createVariant_forces_parentId name_as_slug accept_doc accept_code
           two_categories "2" stray_payload (main_row 2 "button" (JNum 2))).
  - exact store_ok_two_categories.
  - reflexivity.
  - reflexivity.
Defined.

Lemma createVariant_parent_not_found_witness :
  Doc_findByPk two_categories (JStr "99") = None /\
  createVariant name_as_slug accept_doc accept_code two_categories "99"
                stray_payload
  = (two_categories, Message 404 "Parent doc not found").
Proof.
  split; [reflexivity|].
  apply (createVariant_parent_not_found name_as_slug accept_doc accept_code
           two_categories "99" stray_payload stray_fields); reflexivity.
Defined.

Lemma createDoc_codes_not_array_witness :
  isArray (stray_fields "codes") = false /\
  exists st' v,
    createDoc name_as_slug accept_doc accept_code empty_store stray_payload
    = (st', Json 201 (Some v)) /\
    Created.codes v = [] /\
    code_rows st' = code_rows empty_store /\
    doc_rows st' = doc_rows empty_store ++ [Created.doc v].
Proof.
  split; [reflexivity|].
  apply (createDoc_codes_not_array name_as_slug accept_doc accept_code
           empty_store stray_payload stray_fields).
  - exact store_ok_empty.
  - reflexivity.
  - reflexivity.
  - reflexivity.
Defined.

Lemma createDoc_parentId_unchecked_witness :
  Doc_findByPk two_categories (JNum 99) = None /\
  exists st' v,
    createDoc name_as_slug accept_doc accept_code two_categories stray_payload
    = (st', Json 201 (Some v)) /\
    Doc.parentId (Created.doc v) = JNum 99 /\
    main_doc (Created.doc v) = false /\
    In (Created.doc v) (doc_rows st') /\
    createVariant name_as_slug accept_doc accept_code two_categories
                  (Number_toString 99) stray_payload
    = (two_categories, Message 404 "Parent doc not found").
Proof.
  split; [reflexivity|].
  destruct (createDoc_parentId_unchecked name_as_slug accept_doc accept_code
              two_categories stray_payload stray_fields
              store_ok_two_categories eq_refl) as (_ & _ & Hcreate).
  apply (Hcreate 99).
  - reflexivity.
  - discriminate.
  - reflexivity.
  - reflexivity.
  - reflexivity.
Defined.

Lemma updateDoc_keeps_parentId_and_uniqueSlug_witness :
  exists st' sent,
    updateDoc accept_doc two_categories "2" rename_payload
    = (st', Json 200 sent) /\
    Doc.uiName sent = JStr "Button v2" /\
    Doc.parentId sent = JNull /\
    Doc.uniqueSlug sent = JStr "button" /\
    exists doc',
      Doc_findByPk st' (JStr "2") = Some doc' /\
      Doc.id doc' = 2 /\
      Doc.parentId doc' = JNull /\
      Doc.uniqueSlug doc' = JStr "button".
Proof.
  pose proof (updateDoc_keeps_parentId_and_uniqueSlug accept_doc
                two_categories "2" rename_payload
                (main_row 2 "button" (JNum 2)) _ _ eq_refl eq_refl)
    as [Hrow Hsent].
  eexists. eexists. split; [reflexivity|].
  destruct (Hsent _ eq_refl) as (_ & Hp & Hs).
  split; [reflexivity|]. split; [exact Hp|]. split; [exact Hs|].
  exact Hrow.
Defined.

(** ** More on the routes *)

(** A parameter is bound to the decoded segment, and a segment that
    cannot be decoded ends the matching. *)
Example param_is_decoded :
  match_route {| route_method := GET; route_path := [Param "id"];
                 route_handler := Some H_getDocById |} "/a%20b"
  = Bound [("id", "a b")].
Proof. reflexivity. Qed.

Example param_malformed :
  match_route {| route_method := GET; route_path := [Param "id"];
                 route_handler := Some H_getDocById |} "/%"
  = BadParam /\
  decodeURIComponent "%C3%28" = None /\
  decodeURIComponent "%e2%82%ac"
  = Some (String (ascii_of_N 226) (String (ascii_of_N 130)
            (String (ascii_of_N 172) ""))).
Proof. repeat split; reflexivity. Qed.

(** Literal segments match whatever the case of their letters, and one
    trailing slash is allowed. *)
Example literal_ignores_case :
  match_route {| route_method := POST;
                 route_path := [Lit "createVariant"; Param "id"];
                 route_handler := Some H_createVariant |} "/CREATEvariant/7/"
  = Bound [("id", "7")] /\
  match_route {| route_method := POST;
                 route_path := [Lit "createVariant"; Param "id"];
                 route_handler := Some H_createVariant |} "/createVariant//7"
  = NoMatch.
Proof. split; reflexivity. Qed.

(** ** The language of a code block *)

(** X18.  [CodeBlock] reads the language out of a markdown class name:
    "language-x" gives "x"; and the language it hands to the highlighter
    is never empty, an absent class name, an empty one and a bare
    "language-" all giving "javascript". *)
Theorem CodeBlock_language_of_class (l : string) :
  CodeBlock_language (Some ("language-" ++ l)%string)
  = (if (l =? "")%string then "javascript" else l) /\
  CodeBlock_language None = "javascript" /\
  CodeBlock_language (Some "") = "javascript" /\
  (forall className, CodeBlock_language className <> "").
Proof.
  split; [now destruct l|]. split; [reflexivity|]. split; [reflexivity|].
  intros className. unfold CodeBlock_language.
  destruct (String.eqb_spec
              (replace_first "language-" ""
                 match className with Some c => c | None => "" end) "");
    [discriminate|assumption].
Qed.

(** ** Instances of the further theorems *)

Lemma store_ok_families : store_ok families.
Proof. split; simpl; repeat constructor. Qed.

Lemma consistent_two_categories : consistent two_categories.
Proof.
  split; [exact store_ok_two_categories| |]; simpl.
  - repeat constructor; simpl; intuition discriminate.
  - constructor.
Qed.

Lemma consistent_families : consistent families.
Proof.
  split; [exact store_ok_families| |]; simpl.
  - repeat constructor; simpl; intuition discriminate.
  - repeat constructor; simpl; tauto.
Qed.

(** Offers the store and the body of a handler's JSON reply. *)
Ltac offer_sent call :=
  let r := eval vm_compute in call in
  match r with
  | (?s, Json _ ?v) => exists s, v
  end.

Lemma writing_handlers_keep_consistent_witness :
  consistent
    (fst (createDoc name_as_slug accept_doc accept_code families broken_payload))
  /\ consistent (fst (deleteDoc families "1")).
Proof.
  destruct (writing_handlers_keep_consistent name_as_slug accept_doc
              accept_code families consistent_families)
    as (Hcreate & _ & _ & Hdelete).
  split.
  - eapply Hcreate. apply surjective_pairing.
  - eapply Hdelete. apply surjective_pairing.
Defined.

Lemma createDoc_one_row_per_entry_witness :
  exists st' v,
    createDoc name_as_slug accept_doc accept_code empty_store odd_payload
    = (st', Json 201 (Some v)) /\
    map code_columns (Created.codes v) = [(JStr "jsx", JNull); (JNull, JNull)] /\
    Forall (fun c => Code.docId c = Doc.id (Created.doc v)) (Created.codes v).
Proof.
  offer_created (createDoc name_as_slug accept_doc accept_code empty_store
                           odd_payload).
  split; [reflexivity|].
  destruct (createDoc_one_row_per_entry name_as_slug accept_doc accept_code
              empty_store odd_payload odd_fields
              [JObj [("language", JStr "jsx")]; JNum 7] _ _
              store_ok_empty eq_refl eq_refl eq_refl)
    as (Hrows & Hown & _).
  split; [exact Hrows|exact Hown].
Defined.


Lemma created_slug_is_generated_witness :
  exists st' v,
    createDoc name_as_slug accept_doc accept_code empty_store stray_payload
    = (st', Json 201 (Some v)) /\
    stray_fields "uniqueSlug" = JStr "forced" /\
    Doc.uniqueSlug (Created.doc v) = JStr "Ghost".
Proof.
  offer_created (createDoc name_as_slug accept_doc accept_code empty_store
                           stray_payload).
  split; [reflexivity|]. split; [reflexivity|].
  exact (proj1 (created_slug_is_generated name_as_slug accept_doc accept_code
                  empty_store stray_payload stray_fields
                  store_ok_empty eq_refl) _ _ eq_refl).
Defined.

Lemma createVariant_listed_under_parent_witness :
  exists st' v,
    createVariant name_as_slug accept_doc accept_code two_categories "2"
                  stray_payload = (st', Json 201 (Some v)) /\
    exists before,
      getDocById two_categories "2" = Json 200 before /\
      getDocById st' "2"
      = Json 200
          {| Full.doc := Full.doc before;
             Full.codes := Full.codes before;
             Full.category := Full.category before;
             Full.uiVariants :=
               Full.uiVariants before
               ++ [{| Variant.doc := Created.doc v;
                      Variant.codes := Created.codes v |}] |} /\
      (forall docs, getDocs newest_first st' = Json 200 docs ->
                    ~ In (Created.doc v) (map Full.doc docs)).
Proof.
  offer_created (createVariant name_as_slug accept_doc accept_code
                               two_categories "2" stray_payload).
  split; [reflexivity|].
  apply (createVariant_listed_under_parent name_as_slug accept_doc accept_code
           newest_first two_categories "2" stray_payload (main_row 2 "button" (JNum 2))).
  - exact store_ok_two_categories.
  - reflexivity.
  - reflexivity.
Defined.

Lemma createDoc_listed_last_witness :
  exists st' v,
    createDoc name_as_slug accept_doc accept_code two_categories button_payload
    = (st', Json 201 (Some v)) /\
    exists before rest last,
      getDocs newest_first two_categories = Json 200 before /\
      getDocs newest_first st' = Json 200 (rest ++ [last]) /\
      Forall2 same_entry before rest /\
      Full.doc last = Created.doc v /\
      Permutation (Full.codes last) (Created.codes v) /\
      Full.category last = Created.category v.
Proof.
  offer_created (createDoc name_as_slug accept_doc accept_code two_categories
                           button_payload).
  split; [reflexivity|].
  apply (createDoc_listed_last name_as_slug accept_doc accept_code newest_first
           two_categories button_payload button_fields).
  - exact store_ok_two_categories.
  - reflexivity.
  - reflexivity.
  - reflexivity.
Defined.

Lemma updateDoc_partial_update_witness :
  exists st' sent,
    updateDoc accept_doc two_categories "2" rename_payload
    = (st', Json 200 sent) /\
    Doc.uiName sent = JStr "Button v2" /\
    Doc.categoryId sent = JNum 2 /\
    Doc_findByPk st' (JStr "2") = Some sent /\
    Doc_findByPk st' (JStr "1") = Doc_findByPk two_categories (JStr "1").
Proof.
  offer_sent (updateDoc accept_doc two_categories "2" rename_payload).
  split; [reflexivity|].
  destruct (updateDoc_partial_update accept_doc two_categories "2"
              rename_payload
              (own_prop [ ("uiName", JStr "Button v2");
                          ("parentId", JNum 1);
                          ("uniqueSlug", JStr "hijacked") ])
              (main_row 2 "button" (JNum 2)) _ _ eq_refl eq_refl eq_refl)
    as (Hname & _ & _ & _ & _ & _ & _ & Hcat & Hfound & Hothers & _).
  split; [apply Hname; discriminate|].
  split; [apply Hcat; reflexivity|].
  split; [exact Hfound|].
  apply Hothers. reflexivity.
Defined.

Lemma getUniqueSlugsGrouped_ascending_witness :
  exists buckets,
    getUniqueSlugsGrouped false two_categories = Json 200 buckets /\
    StronglySorted (fun a b => key_number a <= key_number b) buckets.
Proof.
  apply (getUniqueSlugsGrouped_ascending false two_categories).
  repeat constructor; simpl; discriminate.
Defined.

Lemma getDocByUniqueSlug_agrees_with_getDocById_witness :
  exists v,
    getDocByUniqueSlug two_categories "button" = Json 200 v /\
    Doc.uniqueSlug (Full.doc v) = JStr "button" /\
    getDocById two_categories (Number_toString (Doc.id (Full.doc v)))
    = Json 200 v.
Proof.
  eexists. split; [reflexivity|].
  apply (proj1 (getDocByUniqueSlug_agrees_with_getDocById two_categories
                  "button" consistent_two_categories)).
  reflexivity.
Defined.

Lemma createDoc_then_getDocByUniqueSlug_witness :
  exists st' v,
    createDoc name_as_slug accept_doc accept_code two_categories button_payload
    = (st', Json 201 (Some v)) /\
    exists found,
      getDocByUniqueSlug st' "Button" = Json 200 found /\
      Full.doc found = Created.doc v /\
      Full.codes found = Created.codes v /\
      Full.category found = Created.category v.
Proof.
  offer_created (createDoc name_as_slug accept_doc accept_code two_categories
                           button_payload).
  split; [reflexivity|].
  apply (createDoc_then_getDocByUniqueSlug name_as_slug accept_doc accept_code
           two_categories button_payload button_fields).
  - exact store_ok_two_categories.
  - reflexivity.
  - reflexivity.
  - reflexivity.
  - intros d [<-|[<-|[<-|[]]]]; discriminate.
Defined.

Lemma deleteDoc_then_not_found_witness :
  exists st',
    deleteDoc families "1" = (st', Message 200 "Doc deleted successfully") /\
    getDocById st' "1" = Message 404 "Doc not found" /\
    deleteDoc st' "1" = (st', Message 404 "Doc not found") /\
    Forall (fun c => Code.docId c <> 1) (code_rows st') /\
    Forall (fun d => Doc.id d <> 1 /\
                     key_eq (Doc.parentId d) (JNum 1) = false)
           (doc_rows st').
Proof.
  apply (deleteDoc_then_not_found families "1" (main_row 1 "card" JNull)).
  reflexivity.
Defined.

Lemma deleteDoc_removes_descendants_witness :
  map Doc.id (doc_rows (fst (deleteDoc families "1"))) = [4; 5] /\
  map Code.id (code_rows (fst (deleteDoc families "1"))) = [2] /\
  forall r, In r (doc_rows (fst (deleteDoc families "1"))) <->
            In r (doc_rows families) /\
            ~ descendant (doc_rows families) 1 (Doc.id r).
Proof.
  split; [reflexivity|]. split; [reflexivity|].
  apply (proj1 (deleteDoc_removes_descendants families "1"
                  (main_row 1 "card" JNull) _ _
                  consistent_families eq_refl (surjective_pairing _))).
Defined.

Lemma deleteDoc_keeps_other_docs_witness :
  exists v',
    getDocById (fst (deleteDoc families "2")) "1" = Json 200 v' /\
    Full.doc v' = main_row 1 "card" JNull /\
    Full.uiVariants v' = [].
Proof.
  destruct (deleteDoc_keeps_other_docs families "2" _ _ "1" _
              (surjective_pairing _) eq_refl) as (v' & Hget & Hdoc & _).
  - simpl. left. reflexivity.
  - exists v'. split; [exact Hget|]. split; [exact Hdoc|].
    vm_compute in Hget. now injection Hget as <-.
Defined.

Lemma getDocs_agrees_with_getDocById_witness :
  exists docs,
    getDocs newest_first families = Json 200 docs /\
    map (fun v => Doc.id (Full.doc v)) docs = [1; 4] /\
    Forall (fun v =>
              (exists detail,
                 getDocById families (Number_toString (Doc.id (Full.doc v)))
                 = Json 200 detail /\
                 same_entry v detail) /\
              Forall (fun w =>
                        exists detail,
                          getDocById families
                            (Number_toString (Doc.id (Variant.doc w)))
                          = Json 200 detail /\
                          Full.doc detail = Variant.doc w /\
                          Permutation (Full.codes detail) (Variant.codes w))
                     (Full.uiVariants v))
           docs.
Proof.
  eexists. split; [reflexivity|]. split; [reflexivity|].
  apply (getDocs_agrees_with_getDocById newest_first families _
           consistent_families).
  reflexivity.
Defined.
